(** * car_web_client: stream consumers and mode/reset controller

    A shallow embedding of the script blocks of

    - [src/components/VideoStream.vue] (the frame stream consumer, followed
      by the index page that fixes the two stream URLs), and
    - [src/components/MetadataPanel.vue] (the metadata stream consumer,
      followed by the variant of the frame stream consumer that also holds
      the reset and aggressive-mode controls).

    The components are event driven: the browser calls their handlers one
    at a time.  Every handler is embedded as a computation in a state and
    exception monad over the reactive variables of the component and the
    part of the browser the component reaches (its timers, its event
    sources, the [#frame] element, the notifications it emits).  An [async]
    function is embedded as the part that runs up to its [await] and the
    part that runs when the awaited promise settles. *)

From Stdlib Require Import Ascii.
From stdpp Require Import base option list strings gmap pretty.

Local Open Scope string_scope.
Local Open Scope Z_scope.

Set Warnings "-register-all".

(** ** Values produced by [JSON.parse] *)

(** A number is kept as the literal that denotes it: its double value and
    its printed form belong to the browser.  An object keeps its members in
    the order of the text; reading a member takes the last one of that
    name, as [JSON.parse] lets a later duplicate overwrite an earlier
    one. *)
Inductive JValue : Type :=
| JNull
| JBool (b : bool)
| JNum (literal : string)
| JStr (s : string)
| JArr (items : list JValue)
| JObj (members : list (string * JValue)).

(** The own property [name] of an object built by [JSON.parse]. *)
Fixpoint own_property (name : string) (members : list (string * JValue))
  : option JValue :=
  match members with
  | [] => None
  | (k, v) :: rest =>
      match own_property name rest with
      | Some later => Some later
      | None => if String.eqb k name then Some v else None
      end
  end.

(** The builtins the scripts call and that the embedding leaves to the
    browser. *)
Class Builtins : Type := {
  (** [JSON.parse]: [None] when it throws a [SyntaxError]. *)
  JSON_parse : string → option JValue;
  (** [Number.prototype.toString] of the number a literal denotes. *)
  Number_toString : string → string;
  (** whether the [EventSource] constructor can resolve the URL *)
  URL_parses : string → bool;
}.

(** A frame message as the stream documents it, [{ frame: <base64> }]: the
    text of an object whose [frame] member is a string. *)
Definition frame_message `{!Builtins} (event_data base64 : string) : Prop :=
  ∃ members, JSON_parse event_data = Some (JObj members)
             ∧ own_property "frame" members = Some (JStr base64).

(** ** Exceptions and the handler monad *)

Inductive Outcome (E A : Type) : Type :=
| Ok (a : A)
| Throw (e : E).
Arguments Ok {E A} a.
Arguments Throw {E A} e.

(** A computation over a state [S] that returns an [A] or throws an [E]. *)
Definition M (S E A : Type) : Type := S → Outcome E A * S.

Definition ret {S E A} (a : A) : M S E A := λ s, (Ok a, s).

Definition bind {S E A B} (m : M S E A) (k : A → M S E B) : M S E B :=
  λ s, match m s with
       | (Ok a, s') => k a s'
       | (Throw e, s') => (Throw e, s')
       end.

Definition throw {S E A} (e : E) : M S E A := λ s, (Throw e, s).

(** [try { body } catch (e) { handler e }]; the handler may throw another
    kind of exception than the body. *)
Definition try_catch {S E E' A} (body : M S E A) (handler : E → M S E' A)
  : M S E' A :=
  λ s, match body s with
       | (Ok a, s') => (Ok a, s')
       | (Throw e, s') => handler e s'
       end.

(** [try { body } finally { final }], for a [final] that completes
    normally: the outcome of [body] is kept. *)
Definition try_finally {S E A} (body : M S E A) (final : S → S) : M S E A :=
  λ s, let '(r, s') := body s in (r, final s').

Definition get {S E} : M S E S := λ s, (Ok s, s).
Definition modify {S E} (f : S → S) : M S E unit := λ s, (Ok tt, f s).

(** The state a computation leaves, whatever its outcome. *)
Definition exec {S E A} (m : M S E A) (s : S) : S := snd (m s).

Declare Scope js_scope.
Delimit Scope js_scope with js.
Notation "x <- m ;; k" := (bind m (λ x, k))
  (at level 100, m at next level, right associativity) : js_scope.
Notation "m ;; k" := (bind m (λ _, k))
  (at level 100, right associativity) : js_scope.
Notation "'when' b 'then' m" := (if b then m else ret tt)
  (at level 99, b at level 9, m at level 99) : js_scope.
Local Open Scope js_scope.

(** ** The part of the browser a component reaches *)

(** [EventSource.readyState]. *)
Inductive ReadyState : Type := CONNECTING | OPEN | CLOSED.

#[global] Instance ReadyState_eq_dec : EqDecision ReadyState.
Proof. solve_decision. Defined.

Record EventSource : Type := {
  es_url : string;
  readyState : ReadyState;
}.

(** What a component raises to its owner with [emit]. *)
Inductive Notification : Type :=
| error_ (message : string)
| connected
| disconnected
| statusChanged (isRunning : bool)
| dataReceived (data : JValue).

(** The init object given to [fetch]. *)
Record Request : Type := {
  req_url : string;
  req_method : string;
  req_headers : list (string * string);
  req_body : option string;
}.

(** The calls a component makes on the outside, in the order made. *)
Inductive Effect : Type :=
| Emit (n : Notification)
| ConsoleError (label : string)
| NewEventSource (id : N) (url : string)
| CloseEventSource (id : N)
| SetTimeout (id : N) (ms : Z)
| ClearTimeout (id : N)
| SetFrameSrc (src : string)
| Fetch (r : Request).

Record World : Type := {
  (** the timers set and neither fired nor cleared, with their delay *)
  timers : gmap N Z;
  (** the handle the next [setTimeout] returns *)
  next_timer : N;
  (** the event sources constructed so far *)
  sources : gmap N EventSource;
  next_source : N;
  (** the [src] of the element with id [frame], when there is one *)
  frame_element : option string;
  (** the effects so far, oldest first *)
  log : list Effect;
}.

Definition set_timers (f : gmap N Z → gmap N Z) (w : World) : World :=
  {| timers := f (timers w); next_timer := next_timer w;
     sources := sources w; next_source := next_source w;
     frame_element := frame_element w; log := log w |}.

Definition set_next_timer (n : N) (w : World) : World :=
  {| timers := timers w; next_timer := n;
     sources := sources w; next_source := next_source w;
     frame_element := frame_element w; log := log w |}.

Definition set_sources (f : gmap N EventSource → gmap N EventSource)
    (w : World) : World :=
  {| timers := timers w; next_timer := next_timer w;
     sources := f (sources w); next_source := next_source w;
     frame_element := frame_element w; log := log w |}.

Definition set_next_source (n : N) (w : World) : World :=
  {| timers := timers w; next_timer := next_timer w;
     sources := sources w; next_source := n;
     frame_element := frame_element w; log := log w |}.

Definition set_frame_element (o : option string) (w : World) : World :=
  {| timers := timers w; next_timer := next_timer w;
     sources := sources w; next_source := next_source w;
     frame_element := o; log := log w |}.

Definition record (e : Effect) (w : World) : World :=
  {| timers := timers w; next_timer := next_timer w;
     sources := sources w; next_source := next_source w;
     frame_element := frame_element w; log := log w ++ [e] |}.

(** The handle of the timer scheduled last, read off the effects. *)
Fixpoint last_scheduled (l : list Effect) : option N :=
  match l with
  | [] => None
  | e :: rest =>
      match last_scheduled rest with
      | Some id => Some id
      | None => match e with SetTimeout id _ => Some id | _ => None end
      end
  end.

(** The event sources that have not been closed. *)
Definition open_sources (w : World) : gmap N EventSource :=
  filter (λ entry, readyState entry.2 ≠ CLOSED) (sources w).

(** The state of a component: its script variables [R] and its slice of
    the browser. *)
Record St (R : Type) : Type := mkSt {
  refs : R;
  world : World;
}.
Arguments mkSt {R} refs world.
Arguments refs {R} s.
Arguments world {R} s.

Definition update_refs {R} (update : R → R) (s : St R) : St R :=
  mkSt (update (refs s)) (world s).

Definition update_world {R} (update : World → World) (s : St R) : St R :=
  mkSt (refs s) (update (world s)).

Section HostCalls.
Context `{!Builtins} {R E : Type}.

Definition read {A} (field : R → A) : M (St R) E A :=
  λ s, (Ok (field (refs s)), s).

Definition write (update : R → R) : M (St R) E unit :=
  modify (update_refs update).

Definition host (update : World → World) : M (St R) E unit :=
  modify (update_world update).

Definition emit (n : Notification) : M (St R) E unit :=
  host (record (Emit n)).

Definition console_error (label : string) : M (St R) E unit :=
  host (record (ConsoleError label)).

(** [setTimeout(callback, ms)]: the timer is registered under a fresh
    handle, which is returned. *)
Definition setTimeout (ms : Z) : M (St R) E N :=
  λ s, let id := next_timer (world s) in
       (Ok id,
        mkSt (refs s)
          (record (SetTimeout id ms)
             (set_next_timer (id + 1)%N
                (set_timers (insert id ms) (world s))))).

(** [clearTimeout(id)]: a handle with no pending timer is ignored. *)
Definition clearTimeout (id : N) : M (St R) E unit :=
  host (λ w, record (ClearTimeout id) (set_timers (delete id) w)).

Definition close_state (es : EventSource) : EventSource :=
  {| es_url := es_url es; readyState := CLOSED |}.

(** [source.close()]. *)
Definition EventSource_close (id : N) : M (St R) E unit :=
  host (λ w, record (CloseEventSource id)
               (set_sources (alter close_state id) w)).

(** [fetch(url, init)]: the request leaves; the promise settles later. *)
Definition fetch (r : Request) : M (St R) E unit :=
  host (record (Fetch r)).

(** [document.getElementById('frame')], as a truth value. *)
Definition getElementById_frame : M (St R) E bool :=
  λ s, (Ok (bool_decide (is_Some (frame_element (world s)))), s).

(** [frameElement.src = src], reached only when the element exists. *)
Definition set_frame_src (src : string) : M (St R) E unit :=
  host (λ w, record (SetFrameSrc src)
               (set_frame_element (Some src) w)).
End HostCalls.

(** What the stream handlers can have thrown at them by the browser. *)
Inductive HostException : Type := SyntaxError | TypeError.

Section HostThrows.
Context `{!Builtins} {R : Type}.

(** [new EventSource(url)]: throws when the URL cannot be resolved;
    otherwise the source starts out connecting. *)
Definition new_EventSource (url : string) : M (St R) HostException N :=
  λ s, if URL_parses url then
         let id := next_source (world s) in
         (Ok id,
          mkSt (refs s)
            (record (NewEventSource id url)
               (set_next_source (id + 1)%N
                  (set_sources
                     (insert id {| es_url := url; readyState := CONNECTING |})
                     (world s)))))
       else (Throw SyntaxError, s).

Definition parse (text : string) : M (St R) HostException JValue :=
  match JSON_parse text with
  | Some v => ret v
  | None => throw SyntaxError
  end.
End HostThrows.

(** ** Conversions applied by the template literal *)

Section Conversions.
Context `{!Builtins}.

(** [ToString] of a value built by [JSON.parse]; [None] when it throws a
    [TypeError].  An array is joined with commas, [null] items printing
    as nothing.  An object prints through [Object.prototype.toString]
    unless a member named [toString] hides it: a member is never
    callable, and [valueOf] then yields no primitive either. *)
Fixpoint ToString (v : JValue) : option string :=
  match v with
  | JNull => Some "null"
  | JBool b => Some (if b then "true" else "false")
  | JNum literal => Some (Number_toString literal)
  | JStr s => Some s
  | JArr items =>
      (fix join (l : list JValue) : option string :=
         match l with
         | [] => Some ""
         | x :: rest =>
             let item := match x with JNull => Some "" | _ => ToString x end in
             match rest with
             | [] => item
             | _ :: _ =>
                 match item, join rest with
                 | Some a, Some b => Some (a +:+ "," +:+ b)
                 | _, _ => None
                 end
             end
         end) items
  | JObj members =>
      match own_property "toString" members with
      | Some _ => None
      | None => Some "[object Object]"
      end
  end.

(** [data.frame]: reading a property of [null] throws; a primitive or an
    array has no such property; an object yields its member, if any.
    [None] is [undefined]. *)
Definition data_frame {S} (data : JValue)
  : M S HostException (option JValue) :=
  match data with
  | JNull => throw TypeError
  | JObj members => ret (own_property "frame" members)
  | _ => ret None
  end.

(** [`data:image/jpeg;base64,${frame}`]. *)
Definition frame_url {S} (frame : option JValue) : M S HostException string :=
  match frame with
  | None => ret ("data:image/jpeg;base64," +:+ "undefined")
  | Some v =>
      match ToString v with
      | Some s => ret ("data:image/jpeg;base64," +:+ s)
      | None => throw TypeError
      end
  end.
End Conversions.

(** ** What an awaited [fetch] settles to *)

(** The value a rejected promise or a [throw] hands to [catch]. *)
Inductive Thrown : Type :=
| ErrorObject (message : string)   (* an instance of [Error] *)
| NonError.                        (* any other value *)

Record Response : Type := { status : N }.

(** [response.ok]. *)
Definition ok (r : Response) : bool :=
  bool_decide (200 ≤ status r ≤ 299)%N.

Inductive Settled : Type :=
| Fulfilled (response : Response)
| Rejected (reason : Thrown).

(** [await promise], once the promise has settled. *)
Definition await {S} (p : Settled) : M S Thrown Response :=
  match p with
  | Fulfilled response => ret response
  | Rejected reason => throw reason
  end.

(** [error instanceof Error ? error.message : 'Unknown error']. *)
Definition message_of (error : Thrown) : string :=
  match error with
  | ErrorObject message => message
  | NonError => "Unknown error"
  end.

(** [Array.prototype.indexOf]. *)
Fixpoint indexOf_from {A} `{EqDecision A} (l : list A) (x : A) (i : Z) : Z :=
  match l with
  | [] => -1
  | y :: rest => if decide (y = x) then i else indexOf_from rest x (i + 1)
  end.

Definition indexOf {A} `{EqDecision A} (l : list A) (x : A) : Z :=
  indexOf_from l x 0.

(** [`truthy`] for a timer handle held in a variable that starts as
    [null]: a number is truthy unless it is zero. *)
Definition truthy (handle : option N) : bool :=
  match handle with
  | Some id => negb (id =? 0)%N
  | None => false
  end.

Definition quote : string := String "034"%char "".

(** ** The frame stream consumer and its controls

    [MetadataPanel.vue], second script block (component [VideoStream]).
    The script of [VideoStream.vue] is the same text without
    [aggressiveMode], [isResetting], [isTogglingMode] and the three
    [async] functions. *)
Module VideoStream.

Inductive AggressiveMode : Type := idle | chasing | explosion.

#[global] Instance AggressiveMode_eq_dec : EqDecision AggressiveMode.
Proof. solve_decision. Defined.

#[global] Instance AggressiveMode_inhabited : Inhabited AggressiveMode :=
  populate idle.

(** The string a mode is at run time. *)
Definition mode_string (m : AggressiveMode) : string :=
  match m with
  | idle => "idle"
  | chasing => "chasing"
  | explosion => "explosion"
  end.

Record Props : Type := {
  streamUrl : string;
  timeout : option Z;
}.

(** [withDefaults(defineProps<Props>(), { timeout: 5000 })]. *)
Definition props_timeout (props : Props) : Z := default 5000 (timeout props).

(** An [async] function stopped at its [await], with the locals it
    goes on with. *)
Inductive Awaiting : Type :=
| in_resetState
| in_toggleAggressiveMode (newMode : AggressiveMode)
| in_setAggressiveMode (mode : AggressiveMode).

Record Refs : Type := {
  isVideoUnavailable : bool;
  hasLastFrame : bool;
  isRunning : bool;
  aggressiveMode : AggressiveMode;
  isResetting : bool;
  isTogglingMode : bool;
  timeoutId : option N;
  frameSource : option N;
  (** the calls to the [async] functions that have not finished *)
  awaiting : list Awaiting;
}.

Definition set_isVideoUnavailable (b : bool) (r : Refs) : Refs :=
  {| isVideoUnavailable := b; hasLastFrame := hasLastFrame r;
     isRunning := isRunning r; aggressiveMode := aggressiveMode r;
     isResetting := isResetting r; isTogglingMode := isTogglingMode r;
     timeoutId := timeoutId r; frameSource := frameSource r;
     awaiting := awaiting r |}.

Definition set_hasLastFrame (b : bool) (r : Refs) : Refs :=
  {| isVideoUnavailable := isVideoUnavailable r; hasLastFrame := b;
     isRunning := isRunning r; aggressiveMode := aggressiveMode r;
     isResetting := isResetting r; isTogglingMode := isTogglingMode r;
     timeoutId := timeoutId r; frameSource := frameSource r;
     awaiting := awaiting r |}.

Definition set_isRunning (b : bool) (r : Refs) : Refs :=
  {| isVideoUnavailable := isVideoUnavailable r;
     hasLastFrame := hasLastFrame r;
     isRunning := b; aggressiveMode := aggressiveMode r;
     isResetting := isResetting r; isTogglingMode := isTogglingMode r;
     timeoutId := timeoutId r; frameSource := frameSource r;
     awaiting := awaiting r |}.

Definition set_aggressiveMode (m : AggressiveMode) (r : Refs) : Refs :=
  {| isVideoUnavailable := isVideoUnavailable r;
     hasLastFrame := hasLastFrame r;
     isRunning := isRunning r; aggressiveMode := m;
     isResetting := isResetting r; isTogglingMode := isTogglingMode r;
     timeoutId := timeoutId r; frameSource := frameSource r;
     awaiting := awaiting r |}.

Definition set_isResetting (b : bool) (r : Refs) : Refs :=
  {| isVideoUnavailable := isVideoUnavailable r;
     hasLastFrame := hasLastFrame r;
     isRunning := isRunning r; aggressiveMode := aggressiveMode r;
     isResetting := b; isTogglingMode := isTogglingMode r;
     timeoutId := timeoutId r; frameSource := frameSource r;
     awaiting := awaiting r |}.

Definition set_isTogglingMode (b : bool) (r : Refs) : Refs :=
  {| isVideoUnavailable := isVideoUnavailable r;
     hasLastFrame := hasLastFrame r;
     isRunning := isRunning r; aggressiveMode := aggressiveMode r;
     isResetting := isResetting r; isTogglingMode := b;
     timeoutId := timeoutId r; frameSource := frameSource r;
     awaiting := awaiting r |}.

Definition set_timeoutId (t : option N) (r : Refs) : Refs :=
  {| isVideoUnavailable := isVideoUnavailable r;
     hasLastFrame := hasLastFrame r;
     isRunning := isRunning r; aggressiveMode := aggressiveMode r;
     isResetting := isResetting r; isTogglingMode := isTogglingMode r;
     timeoutId := t; frameSource := frameSource r;
     awaiting := awaiting r |}.

Definition set_frameSource (c : option N) (r : Refs) : Refs :=
  {| isVideoUnavailable := isVideoUnavailable r;
     hasLastFrame := hasLastFrame r;
     isRunning := isRunning r; aggressiveMode := aggressiveMode r;
     isResetting := isResetting r; isTogglingMode := isTogglingMode r;
     timeoutId := timeoutId r; frameSource := c;
     awaiting := awaiting r |}.

Definition set_awaiting (f : list Awaiting → list Awaiting) (r : Refs)
  : Refs :=
  {| isVideoUnavailable := isVideoUnavailable r;
     hasLastFrame := hasLastFrame r;
     isRunning := isRunning r; aggressiveMode := aggressiveMode r;
     isResetting := isResetting r; isTogglingMode := isTogglingMode r;
     timeoutId := timeoutId r; frameSource := frameSource r;
     awaiting := f (awaiting r) |}.

(** The variables as the script declares them. *)
Definition setup : Refs :=
  {| isVideoUnavailable := false; hasLastFrame := false;
     isRunning := false; aggressiveMode := idle;
     isResetting := false; isTogglingMode := false;
     timeoutId := None; frameSource := None; awaiting := [] |}.

Abbreviation State := (St Refs).

Section Script.
Context `{!Builtins} (props : Props).

(** *** Handlers installed by [startStream] *)

(** The callback given to [setTimeout]. *)
Definition stale : M State HostException unit :=
  write (set_isVideoUnavailable true) ;;
  emit disconnected.

Definition onmessage (event_data : string) : M State HostException unit :=
  try_catch
    (data <- parse event_data ;;
     frameElement <- getElementById_frame ;;
     (if frameElement : bool then
        frame <- data_frame data ;;
        src <- frame_url frame ;;
        set_frame_src src ;;
        write (set_hasLastFrame true) ;;
        write (set_isVideoUnavailable false)
      else ret tt) ;;
     previous <- read timeoutId ;;
     (match previous with
      | Some id => when (truthy previous) then clearTimeout id
      | None => ret tt
      end) ;;
     id <- setTimeout (props_timeout props) ;;
     write (set_timeoutId (Some id)))
    (λ _ : HostException,
       console_error "Failed to parse frame data:" ;;
       write (set_isVideoUnavailable true) ;;
       emit (error_ "Failed to parse frame data")).

Definition onerror : M State HostException unit :=
  console_error "EventSource error:" ;;
  write (set_isVideoUnavailable true) ;;
  emit (error_ "EventSource connection error").

Definition onopen : M State HostException unit :=
  write (set_isVideoUnavailable false) ;;
  emit connected.

(** *** Functions of the script *)

Definition startStream : M State HostException unit :=
  current <- read frameSource ;;
  (match current with
   | Some c => EventSource_close c
   | None => ret tt
   end) ;;
  c <- new_EventSource (streamUrl props) ;;
  write (set_frameSource (Some c)) ;;
  write (set_isRunning true) ;;
  emit (statusChanged true).

Definition stopStream : M State HostException unit :=
  current <- read frameSource ;;
  (match current with
   | Some c =>
       EventSource_close c ;;
       write (set_frameSource None)
   | None => ret tt
   end) ;;
  previous <- read timeoutId ;;
  (match previous with
   | Some id =>
       when (truthy previous) then
         (clearTimeout id ;;
          write (set_timeoutId None))
   | None => ret tt
   end) ;;
  write (set_isRunning false) ;;
  write (set_isVideoUnavailable true) ;;
  emit (statusChanged false) ;;
  emit disconnected.

Definition toggleStream : M State HostException unit :=
  running <- read isRunning ;;
  if running : bool then stopStream else startStream.

(** *** The controls *)

Definition suspend (a : Awaiting) : M State HostException unit :=
  write (set_awaiting (λ l, (l ++ [a])%list)).

Definition resetState_request : Request :=
  {| req_url := "http://localhost:8000/increment";
     req_method := "POST";
     req_headers := [];
     req_body := None |}.

(** [resetState], up to [await fetch(...)]. *)
Definition resetState : M State HostException unit :=
  busy <- read isResetting ;;
  if busy : bool then ret tt
  else
    write (set_isResetting true) ;;
    fetch resetState_request ;;
    suspend in_resetState.

(** [resetState]: the [try] block from the settled [fetch] on. *)
Definition resetState_try (settled : Settled) : M State Thrown unit :=
  response <- await settled ;;
  (if negb (ok response)
   then throw (ErrorObject ("Reset failed: " +:+ pretty (status response)))
   else ret tt) ;;
  running <- read isRunning ;;
  emit (statusChanged running).

(** [resetState]: the [catch] block. *)
Definition resetState_catch (error : Thrown)
  : M State HostException unit :=
  console_error "Reset state error:" ;;
  emit (error_ ("Reset state failed: " +:+ message_of error)).

(** [resetState], from the settled [fetch] on. *)
Definition resetState_resume (settled : Settled)
  : M State HostException unit :=
  try_finally
    (try_catch (resetState_try settled) resetState_catch)
    (update_refs (set_isResetting false)).

Definition modes : list AggressiveMode := [idle; chasing; explosion].

Definition currentIndex (current : AggressiveMode) : Z :=
  indexOf modes current.

(** [(currentIndex + 1) % modes.length]. *)
Definition nextIndex (current : AggressiveMode) : Z :=
  Z.rem (currentIndex current + 1) (Z.of_nat (length modes)).

(** [modes[nextIndex]]; [nextIndex_in_range] shows the index is one
    of the list. *)
Definition newMode (current : AggressiveMode) : AggressiveMode :=
  modes !!! Z.to_nat (nextIndex current).

(** [JSON.stringify({ config_aggressive: mode })]. *)
Definition config_body (mode : AggressiveMode) : string :=
  "{" +:+ quote +:+ "config_aggressive" +:+ quote +:+ ":"
      +:+ quote +:+ mode_string mode +:+ quote +:+ "}".

Definition config_request (mode : AggressiveMode) : Request :=
  {| req_url := "http://localhost:8000/config";
     req_method := "POST";
     req_headers := [("Content-Type", "application/json")];
     req_body := Some (config_body mode) |}.

(** [toggleAggressiveMode], up to [await fetch(...)]. *)
Definition toggleAggressiveMode : M State HostException unit :=
  busy <- read isTogglingMode ;;
  if busy : bool then ret tt
  else
    write (set_isTogglingMode true) ;;
    current <- read aggressiveMode ;;
    fetch (config_request (newMode current)) ;;
    suspend (in_toggleAggressiveMode (newMode current)).

(** [toggleAggressiveMode]: the [try] block from the settled [fetch]
    on. *)
Definition toggleAggressiveMode_try (newMode : AggressiveMode)
    (settled : Settled) : M State Thrown unit :=
  response <- await settled ;;
  (if negb (ok response)
   then throw (ErrorObject
                 ("Config update failed: " +:+ pretty (status response)))
   else ret tt) ;;
  write (set_aggressiveMode newMode) ;;
  running <- read isRunning ;;
  emit (statusChanged running).

(** [toggleAggressiveMode]: the [catch] block. *)
Definition toggleAggressiveMode_catch (error : Thrown)
  : M State HostException unit :=
  console_error "Toggle aggressive mode error:" ;;
  emit (error_ ("Toggle aggressive mode failed: " +:+ message_of error)).

(** [toggleAggressiveMode], from the settled [fetch] on. *)
Definition toggleAggressiveMode_resume (newMode : AggressiveMode)
    (settled : Settled) : M State HostException unit :=
  try_finally
    (try_catch (toggleAggressiveMode_try newMode settled)
               toggleAggressiveMode_catch)
    (update_refs (set_isTogglingMode false)).

(** [setAggressiveMode(mode)], up to [await fetch(...)]. *)
Definition setAggressiveMode (mode : AggressiveMode)
  : M State HostException unit :=
  busy <- read isTogglingMode ;;
  current <- read aggressiveMode ;;
  if (busy : bool) || bool_decide (current = mode) then ret tt
  else
    write (set_isTogglingMode true) ;;
    fetch (config_request mode) ;;
    suspend (in_setAggressiveMode mode).

(** [setAggressiveMode(mode)]: the [try] block from the settled
    [fetch] on. *)
Definition setAggressiveMode_try (mode : AggressiveMode)
    (settled : Settled) : M State Thrown unit :=
  response <- await settled ;;
  (if negb (ok response)
   then throw (ErrorObject
                 ("Config update failed: " +:+ pretty (status response)))
   else ret tt) ;;
  write (set_aggressiveMode mode) ;;
  running <- read isRunning ;;
  emit (statusChanged running).

(** [setAggressiveMode(mode)]: the [catch] block. *)
Definition setAggressiveMode_catch (error : Thrown)
  : M State HostException unit :=
  console_error "Set aggressive mode error:" ;;
  emit (error_ ("Set aggressive mode failed: " +:+ message_of error)).

(** [setAggressiveMode(mode)], from the settled [fetch] on. *)
Definition setAggressiveMode_resume (mode : AggressiveMode)
    (settled : Settled) : M State HostException unit :=
  try_finally
    (try_catch (setAggressiveMode_try mode settled)
               setAggressiveMode_catch)
    (update_refs (set_isTogglingMode false)).

Definition resume (a : Awaiting) (settled : Settled)
  : M State HostException unit :=
  match a with
  | in_resetState => resetState_resume settled
  | in_toggleAggressiveMode newMode =>
      toggleAggressiveMode_resume newMode settled
  | in_setAggressiveMode mode => setAggressiveMode_resume mode settled
  end.

(** *** What can happen to a mounted component *)

Inductive Event : Type :=
(* calls of the functions of the script *)
| call_startStream
| call_stopStream
| call_toggleStream
| call_resetState
| call_toggleAggressiveMode
| call_setAggressiveMode (mode : AggressiveMode)
(* the [select] bound to [aggressiveMode] with [v-model] *)
| select_change (mode : AggressiveMode)
(* the browser *)
| message (c : N) (event_data : string)
| open_ (c : N)
| error_event (c : N) (fatal : bool)
| timer_fires (id : N)
| settles (k : nat) (settled : Settled)
| dom_change (frame : option string).

Definition set_readyState (rs : ReadyState) (es : EventSource)
  : EventSource :=
  {| es_url := es_url es; readyState := rs |}.

Definition run (m : M State HostException unit) (s : State)
  : option State :=
  Some (exec m s).

(** The state after an event, or [None] when the event cannot happen
    in this state: a closed source dispatches nothing, a timer fires
    only while it is pending, only a pending [fetch] settles, and the
    [select] is disabled while a mode change is in flight.  A call
    that throws leaves the state it reached. *)
Definition handle (ev : Event) (s : State) : option State :=
  match ev with
  | call_startStream => run startStream s
  | call_stopStream => run stopStream s
  | call_toggleStream => run toggleStream s
  | call_resetState => run resetState s
  | call_toggleAggressiveMode => run toggleAggressiveMode s
  | call_setAggressiveMode mode => run (setAggressiveMode mode) s
  | select_change mode =>
      if isTogglingMode (refs s) then None
      else run (write (set_aggressiveMode mode) ;;
                current <- read aggressiveMode ;;
                setAggressiveMode current) s
  | message c event_data =>
      match sources (world s) !! c with
      | Some es =>
          if decide (readyState es = CLOSED) then None
          else run (onmessage event_data) s
      | None => None
      end
  | open_ c =>
      match sources (world s) !! c with
      | Some es =>
          if decide (readyState es = CONNECTING) then
            run (host (set_sources (alter (set_readyState OPEN) c)) ;;
                 onopen) s
          else None
      | None => None
      end
  | error_event c fatal =>
      match sources (world s) !! c with
      | Some es =>
          if decide (readyState es = CLOSED) then None
          else
            run (host (set_sources
                         (alter (set_readyState
                                   (if fatal then CLOSED else CONNECTING))
                                c)) ;;
                 onerror) s
      | None => None
      end
  | timer_fires id =>
      match timers (world s) !! id with
      | Some _ => run (host (set_timers (delete id)) ;; stale) s
      | None => None
      end
  | settles k settled =>
      match awaiting (refs s) !! k with
      | Some a =>
          run (write (set_awaiting (delete k)) ;; resume a settled) s
      | None => None
      end
  | dom_change frame => run (host (set_frame_element frame)) s
  end.

(** The component as mounted: the browser has handed out handles
    before, none of them zero. *)
Definition mounted (first_timer first_source : N)
    (frame : option string) : State :=
  mkSt setup
       {| timers := ∅; next_timer := first_timer;
          sources := ∅; next_source := first_source;
          frame_element := frame; log := [] |}.

Inductive reachable : State → Prop :=
| reachable_mounted first_timer first_source frame :
    first_timer ≠ 0%N →
    reachable (mounted first_timer first_source frame)
| reachable_handle s ev s' :
    reachable s → handle ev s = Some s' → reachable s'.

(** The events of a list in turn, skipping those that cannot happen. *)
Fixpoint after (events : list Event) (s : State) : State :=
  match events with
  | [] => s
  | ev :: rest => after rest (default s (handle ev s))
  end.

(** *** What the reachable states keep *)

(** The pending timers are among the one [timeoutId] holds, and a
    handle held is not zero and is the last one scheduled. *)
Record timer_invariant (s : State) : Prop := {
  inv_next_timer : next_timer (world s) ≠ 0%N;
  inv_pending :
    ∀ id, is_Some (timers (world s) !! id) → timeoutId (refs s) = Some id;
  inv_handle :
    ∀ id, timeoutId (refs s) = Some id →
          id ≠ 0%N ∧ last_scheduled (log (world s)) = Some id;
}.

(** The sources not closed are among the one [frameSource] holds. *)
Record source_invariant (s : State) : Prop := {
  inv_open :
    ∀ c es, sources (world s) !! c = Some es → readyState es ≠ CLOSED →
            frameSource (refs s) = Some c;
  inv_fresh :
    ∀ c, is_Some (sources (world s) !! c) → (c < next_source (world s))%N;
  inv_held :
    ∀ c, frameSource (refs s) = Some c → is_Some (sources (world s) !! c);
}.
End Script.
End VideoStream.

(** ** The metadata stream consumer

    [MetadataPanel.vue], first script block (component [MetadataPanel]). *)
Module MetadataPanel.

Record Props : Type := { streamUrl : string }.

Record Refs : Type := {
  (** the snapshot shown; [null] until the first message *)
  metadata : JValue;
  isRunning : bool;
  metadataSource : option N;
}.

Definition set_metadata (data : JValue) (r : Refs) : Refs :=
  {| metadata := data; isRunning := isRunning r;
     metadataSource := metadataSource r |}.

Definition set_isRunning (b : bool) (r : Refs) : Refs :=
  {| metadata := metadata r; isRunning := b;
     metadataSource := metadataSource r |}.

Definition set_metadataSource (c : option N) (r : Refs) : Refs :=
  {| metadata := metadata r; isRunning := isRunning r;
     metadataSource := c |}.

Definition setup : Refs :=
  {| metadata := JNull; isRunning := false; metadataSource := None |}.

Abbreviation State := (St Refs).

Section Script.
Context `{!Builtins} (props : Props).

Definition onmessage (event_data : string) : M State HostException unit :=
  try_catch
    (data <- parse event_data ;;
     write (set_metadata data) ;;
     emit (dataReceived data))
    (λ _ : HostException,
       console_error "Failed to parse metadata:" ;;
       emit (error_ "Failed to parse metadata")).

Definition onerror : M State HostException unit :=
  console_error "Metadata EventSource error:" ;;
  emit (error_ "Metadata connection error").

Definition startStream : M State HostException unit :=
  current <- read metadataSource ;;
  (match current with
   | Some c => EventSource_close c
   | None => ret tt
   end) ;;
  c <- new_EventSource (streamUrl props) ;;
  write (set_metadataSource (Some c)) ;;
  write (set_isRunning true) ;;
  emit (statusChanged true).

Definition stopStream : M State HostException unit :=
  current <- read metadataSource ;;
  (match current with
   | Some c =>
       EventSource_close c ;;
       write (set_metadataSource None)
   | None => ret tt
   end) ;;
  write (set_isRunning false) ;;
  emit (statusChanged false).

Definition toggleStream : M State HostException unit :=
  running <- read isRunning ;;
  if running : bool then stopStream else startStream.

Inductive Event : Type :=
| call_startStream
| call_stopStream
| call_toggleStream
| message (c : N) (event_data : string)
| open_ (c : N)
| error_event (c : N) (fatal : bool).

Definition set_readyState (rs : ReadyState) (es : EventSource)
  : EventSource :=
  {| es_url := es_url es; readyState := rs |}.

Definition run (m : M State HostException unit) (s : State)
  : option State :=
  Some (exec m s).

(** The state after an event, or [None] when the event cannot happen
    in this state.  The script installs no [onopen] handler. *)
Definition handle (ev : Event) (s : State) : option State :=
  match ev with
  | call_startStream => run startStream s
  | call_stopStream => run stopStream s
  | call_toggleStream => run toggleStream s
  | message c event_data =>
      match sources (world s) !! c with
      | Some es =>
          if decide (readyState es = CLOSED) then None
          else run (onmessage event_data) s
      | None => None
      end
  | open_ c =>
      match sources (world s) !! c with
      | Some es =>
          if decide (readyState es = CONNECTING) then
            run (host (set_sources (alter (set_readyState OPEN) c))) s
          else None
      | None => None
      end
  | error_event c fatal =>
      match sources (world s) !! c with
      | Some es =>
          if decide (readyState es = CLOSED) then None
          else
            run (host (set_sources
                         (alter (set_readyState
                                   (if fatal then CLOSED else CONNECTING))
                                c)) ;;
                 onerror) s
      | None => None
      end
  end.

Definition mounted (first_source : N) : State :=
  mkSt setup
       {| timers := ∅; next_timer := 1%N;
          sources := ∅; next_source := first_source;
          frame_element := None; log := [] |}.

Inductive reachable : State → Prop :=
| reachable_mounted first_source : reachable (mounted first_source)
| reachable_handle s ev s' :
    reachable s → handle ev s = Some s' → reachable s'.

(** The events of a list in turn, skipping those that cannot happen. *)
Fixpoint after (events : list Event) (s : State) : State :=
  match events with
  | [] => s
  | ev :: rest => after rest (default s (handle ev s))
  end.

(** The sources not closed are among the one [metadataSource] holds. *)
Record source_invariant (s : State) : Prop := {
  inv_open :
    ∀ c es, sources (world s) !! c = Some es → readyState es ≠ CLOSED →
            metadataSource (refs s) = Some c;
  inv_fresh :
    ∀ c, is_Some (sources (world s) !! c) → (c < next_source (world s))%N;
  inv_held :
    ∀ c, metadataSource (refs s) = Some c →
         is_Some (sources (world s) !! c);
}.
End Script.
End MetadataPanel.

(** ** The index page

    [VideoStream.vue], second script block (component [IndexPage]). *)
Module IndexPage.
Definition baseUrl : string := "http://192.168.66.120:8000".
Definition frameStreamUrl : string := baseUrl +:+ "/stream/frame".
Definition metadataStreamUrl : string := baseUrl +:+ "/stream/metadata".

(** The props the template passes; [timeout] is left to its default. *)
Definition VideoStream_props : VideoStream.Props :=
  {| VideoStream.streamUrl := frameStreamUrl;
     VideoStream.timeout := None |}.

Definition MetadataPanel_props : MetadataPanel.Props :=
  {| MetadataPanel.streamUrl := metadataStreamUrl |}.
End IndexPage.

(** ** A reference implementation of the builtins

    The theorems below hold for every [Builtins].  The examples run the
    scripts on concrete event data, with this reader of JSON texts (RFC
    8259, the grammar of [JSON.parse]) over the bytes of the text.  A
    number literal stands for itself; [Number_toString] gives the literal
    back, which is its printed form when the literal is already the
    shortest one, as in the examples.  A URL is resolved as the parser
    of the URL standard does it for a document served over [http]. *)
Module Reference.

Definition code (c : ascii) : N := N_of_ascii c.
Definition byte (n : N) : ascii := ascii_of_N n.

Definition is_ws (c : ascii) : bool :=
  bool_decide (code c ∈ [32; 9; 10; 13]%N).

Definition is_digit (c : ascii) : bool :=
  bool_decide (48 ≤ code c ≤ 57)%N.

Fixpoint skip_ws (l : list ascii) : list ascii :=
  match l with
  | c :: rest => if is_ws c then skip_ws rest else l
  | [] => []
  end.

(** The longest run of digits at the head of [l], and what follows. *)
Fixpoint digits (l : list ascii) : list ascii * list ascii :=
  match l with
  | c :: rest =>
      if is_digit c then let '(ds, r) := digits rest in (c :: ds, r)
      else ([], l)
  | [] => ([], [])
  end.

Definition hex_value (c : ascii) : option N :=
  let n := code c in
  if bool_decide (48 ≤ n ≤ 57)%N then Some (n - 48)%N
  else if bool_decide (65 ≤ n ≤ 70)%N then Some (n - 55)%N
  else if bool_decide (97 ≤ n ≤ 102)%N then Some (n - 87)%N
  else None.

(** Four hexadecimal digits, as after [\u]. *)
Definition hex4 (l : list ascii) : option (N * list ascii) :=
  match l with
  | a :: b :: c :: d :: rest =>
      match hex_value a, hex_value b, hex_value c, hex_value d with
      | Some x, Some y, Some z, Some w =>
          Some (x * 4096 + y * 256 + z * 16 + w, rest)%N
      | _, _, _, _ => None
      end
  | _ => None
  end.

(** The bytes of a code point in UTF-8. *)
Definition utf8 (cp : N) : list ascii :=
  let cont (n : N) := byte (128 + N.land n 63) in
  if (cp <? 128)%N then [byte cp]
  else if (cp <? 2048)%N then
    [byte (192 + N.shiftr cp 6); cont cp]
  else if (cp <? 65536)%N then
    [byte (224 + N.shiftr cp 12); cont (N.shiftr cp 6); cont cp]
  else
    [byte (240 + N.shiftr cp 18); cont (N.shiftr cp 12);
     cont (N.shiftr cp 6); cont cp].

Definition is_high_surrogate (u : N) : bool :=
  bool_decide (55296 ≤ u ≤ 56319)%N.
Definition is_low_surrogate (u : N) : bool :=
  bool_decide (56320 ≤ u ≤ 57343)%N.

(** The characters of a string literal after its opening quote, up to
    the closing quote; [acc] holds the bytes read so far, last first. *)
Fixpoint string_body (fuel : nat) (l acc : list ascii)
  : option (list ascii * list ascii) :=
  match fuel with
  | O => None
  | S fuel =>
      match l with
      | [] => None
      | c :: rest =>
          if bool_decide (code c = 34)%N then Some (rev acc, rest)
          else if bool_decide (code c = 92)%N then
            match rest with
            | [] => None
            | e :: rest' =>
                let simple (n : N) :=
                  string_body fuel rest' (byte n :: acc) in
                match code e with
                | 34 => simple 34 | 92 => simple 92 | 47 => simple 47
                | 98 => simple 8 | 102 => simple 12 | 110 => simple 10
                | 114 => simple 13 | 116 => simple 9
                | 117 =>
                    match hex4 rest' with
                    | None => None
                    | Some (u, after) =>
                        let single :=
                          string_body fuel after (rev (utf8 u) ++ acc) in
                        if is_high_surrogate u then
                          match after with
                          | b :: v :: after' =>
                              if bool_decide (code b = 92)%N
                                 && bool_decide (code v = 117)%N then
                                match hex4 after' with
                                | Some (w, after'') =>
                                    if is_low_surrogate w then
                                      string_body fuel after''
                                        (rev (utf8 (65536
                                                    + (u - 55296) * 1024
                                                    + (w - 56320)))
                                           ++ acc)
                                    else single
                                | None => single
                                end
                              else single
                          | _ => single
                          end
                        else single
                    end
                | _ => None
                end%N
            end
          else if (code c <? 32)%N then None
          else string_body fuel rest (c :: acc)
      end
  end.

Definition string_literal (l : list ascii) : option (string * list ascii) :=
  match string_body (S (length l)) l [] with
  | Some (bytes, rest) => Some (String.string_of_list_ascii bytes, rest)
  | None => None
  end.

(** A number literal: sign, integer part with no leading zero, fraction,
    exponent. *)
Definition number_literal (l : list ascii)
  : option (string * list ascii) :=
  let '(sign, l1) :=
    match l with
    | c :: rest => if bool_decide (code c = 45)%N then ([c], rest) else ([], l)
    | [] => ([], l)
    end in
  match l1 with
  | [] => None
  | d :: rest =>
      if negb (is_digit d) then None
      else
        let '(int, l2) :=
          if bool_decide (code d = 48)%N then ([d], rest)
          else let '(ds, r) := digits rest in (d :: ds, r) in
        let frac :=
          match l2 with
          | p :: rest2 =>
              if bool_decide (code p = 46)%N then
                match digits rest2 with
                | ([], _) => None
                | (ds, r) => Some (p :: ds, r)
                end
              else Some ([], l2)
          | [] => Some ([], l2)
          end in
        match frac with
        | None => None
        | Some (fr, l3) =>
            let exp :=
              match l3 with
              | e :: rest3 =>
                  if bool_decide (code e ∈ [101; 69]%N) then
                    let '(sg, l4) :=
                      match rest3 with
                      | s :: rest4 =>
                          if bool_decide (code s ∈ [43; 45]%N)
                          then ([s], rest4) else ([], rest3)
                      | [] => ([], rest3)
                      end in
                    match digits l4 with
                    | ([], _) => None
                    | (ds, r) => Some (e :: sg ++ ds, r)
                    end
                  else Some ([], l3)
              | [] => Some ([], l3)
              end in
            match exp with
            | None => None
            | Some (ex, l5) =>
                Some (String.string_of_list_ascii (sign ++ int ++ fr ++ ex), l5)
            end
        end
  end%list.

(** [word] at the head of [l]. *)
Fixpoint keyword (word l : list ascii) : option (list ascii) :=
  match word, l with
  | [], _ => Some l
  | w :: word', c :: rest =>
      if bool_decide (w = c) then keyword word' rest else None
  | _ :: _, [] => None
  end.

Definition chars (s : string) : list ascii := String.list_ascii_of_string s.

(** A value, after optional white space; the rest of the text follows
    it.  [members] reads from the first name of an object to its closing
    brace, [elements] from the first item of an array to its closing
    bracket. *)
Fixpoint value (fuel : nat) (l : list ascii)
  : option (JValue * list ascii) :=
  match fuel with
  | O => None
  | S fuel =>
      match skip_ws l with
      | [] => None
      | c :: rest =>
          match code c with
          | 123 =>
              match skip_ws rest with
              | c' :: rest' =>
                  if bool_decide (code c' = 125)%N
                  then Some (JObj [], rest')
                  else
                    match members fuel rest with
                    | Some (ms, r) => Some (JObj ms, r)
                    | None => None
                    end
              | [] => None
              end
          | 91 =>
              match skip_ws rest with
              | c' :: rest' =>
                  if bool_decide (code c' = 93)%N
                  then Some (JArr [], rest')
                  else
                    match elements fuel rest with
                    | Some (vs, r) => Some (JArr vs, r)
                    | None => None
                    end
              | [] => None
              end
          | 34 =>
              match string_literal rest with
              | Some (s, r) => Some (JStr s, r)
              | None => None
              end
          | 116 =>
              match keyword (chars "true") (c :: rest) with
              | Some r => Some (JBool true, r)
              | None => None
              end
          | 102 =>
              match keyword (chars "false") (c :: rest) with
              | Some r => Some (JBool false, r)
              | None => None
              end
          | 110 =>
              match keyword (chars "null") (c :: rest) with
              | Some r => Some (JNull, r)
              | None => None
              end
          | _ =>
              match number_literal (c :: rest) with
              | Some (n, r) => Some (JNum n, r)
              | None => None
              end
          end%N
      end
  end
with members (fuel : nat) (l : list ascii)
  : option (list (string * JValue) * list ascii) :=
  match fuel with
  | O => None
  | S fuel =>
      match skip_ws l with
      | q :: rest =>
          if bool_decide (code q = 34)%N then
            match string_literal rest with
            | Some (name, r1) =>
                match skip_ws r1 with
                | colon :: r2 =>
                    if bool_decide (code colon = 58)%N then
                      match value fuel r2 with
                      | Some (v, r3) =>
                          match skip_ws r3 with
                          | sep :: r4 =>
                              if bool_decide (code sep = 44)%N then
                                match members fuel r4 with
                                | Some (ms, r5) => Some ((name, v) :: ms, r5)
                                | None => None
                                end
                              else if bool_decide (code sep = 125)%N
                              then Some ([(name, v)], r4)
                              else None
                          | [] => None
                          end
                      | None => None
                      end
                    else None
                | [] => None
                end
            | None => None
            end
          else None
      | [] => None
      end
  end
with elements (fuel : nat) (l : list ascii)
  : option (list JValue * list ascii) :=
  match fuel with
  | O => None
  | S fuel =>
      match value fuel l with
      | Some (v, r1) =>
          match skip_ws r1 with
          | sep :: r2 =>
              if bool_decide (code sep = 44)%N then
                match elements fuel r2 with
                | Some (vs, r3) => Some (v :: vs, r3)
                | None => None
                end
              else if bool_decide (code sep = 93)%N
              then Some ([v], r2)
              else None
          | [] => None
          end
      | None => None
      end
  end.

(** The whole text is one value; every nested call of the three readers
    comes after at least one more byte every second call, so the fuel
    does not run out. *)
Definition json_parse (text : string) : option JValue :=
  let l := chars text in
  match value (2 * length l + 2) l with
  | Some (v, rest) =>
      match skip_ws rest with
      | [] => Some v
      | _ :: _ => None
      end
  | None => None
  end.

(** *** Resolving a URL

    [new EventSource(url)] throws when the URL parser of the URL standard
    fails on [url] against the URL of the document.  [url_parses] follows
    that parser as far as it can fail, for a document served over [http]:
    leading and trailing C0 controls and spaces are stripped, tabs and
    newlines removed; a string with no scheme is a relative reference,
    [http:] with no two slashes after it is one as well, and such a
    reference fails only through the host of a scheme-relative one
    ([//host]); a path, a query and a fragment never fail.  An authority
    fails when credentials or a port come with no host, when the host of
    a special scheme is missing, when the host holds a forbidden code
    point or ends in a number and is no IPv4 address, and when the port
    is no number up to 65535.

    Left out: an IPv6 literal is checked only for its brackets and its
    characters, and a domain is not run through IDNA, so that bytes
    outside ASCII and [xn--] labels pass. *)
Definition is_alpha (c : ascii) : bool :=
  bool_decide (65 ≤ code c ≤ 90 ∨ 97 ≤ code c ≤ 122)%N.

Definition lower (c : ascii) : ascii :=
  if bool_decide (65 ≤ code c ≤ 90)%N then byte (code c + 32) else c.

Definition is_slash (c : ascii) : bool :=
  bool_decide (code c ∈ [47; 92]%N).

(** Without the C0 controls and spaces at its head. *)
Fixpoint strip (l : list ascii) : list ascii :=
  match l with
  | c :: rest => if (code c <=? 32)%N then strip rest else l
  | [] => []
  end.

Definition preprocess (url : string) : list ascii :=
  filter (λ c, code c ∉ [9; 10; 13]%N)
         (rev (strip (rev (strip (chars url))))).

(** The scheme, in lower case, and what follows its colon; [acc] holds
    the scheme read so far, last first. *)
Fixpoint scheme_tail (l acc : list ascii) : option (string * list ascii) :=
  match l with
  | c :: rest =>
      if bool_decide (code c = 58)%N
      then Some (String.string_of_list_ascii (rev acc), rest)
      else if is_alpha c || is_digit c
                || bool_decide (code c ∈ [43; 45; 46]%N)
      then scheme_tail rest (lower c :: acc)
      else None
  | [] => None
  end.

Definition scheme_of (l : list ascii) : option (string * list ascii) :=
  match l with
  | c :: rest => if is_alpha c then scheme_tail rest [lower c] else None
  | [] => None
  end.

Definition special_schemes : list string :=
  ["ftp"; "http"; "https"; "ws"; "wss"].

(** The head of [l] up to the first byte at which [stop] holds. *)
Fixpoint upto (stop : ascii → bool) (l : list ascii) : list ascii :=
  match l with
  | c :: rest => if stop c then [] else c :: upto stop rest
  | [] => []
  end.

Fixpoint skip_slashes (l : list ascii) : list ascii :=
  match l with
  | c :: rest => if is_slash c then skip_slashes rest else l
  | [] => []
  end.

(** Where an authority ends: at a slash, a question mark or a number
    sign, and for a special scheme at a backslash. *)
Definition ends_authority (special : bool) (c : ascii) : bool :=
  bool_decide (code c ∈ [47; 63; 35]%N)
  || (special && bool_decide (code c = 92)%N).

(** The host and, after the first colon outside brackets, the port. *)
Fixpoint host_and_port (l acc : list ascii) (inside : bool)
  : list ascii * option (list ascii) :=
  match l with
  | c :: rest =>
      if bool_decide (code c = 58)%N && negb inside
      then (rev acc, Some rest)
      else
        host_and_port rest (c :: acc)
          (if bool_decide (code c = 91)%N then true
           else if bool_decide (code c = 93)%N then false
           else inside)
  | [] => (rev acc, None)
  end.

Fixpoint percent_decode (l : list ascii) : list ascii :=
  match l with
  | c :: rest =>
      match rest with
      | a :: b :: rest' =>
          match (if bool_decide (code c = 37)%N then hex_value a else None),
                hex_value b with
          | Some x, Some y => byte (16 * x + y) :: percent_decode rest'
          | _, _ => c :: percent_decode rest
          end
      | _ => c :: percent_decode rest
      end
  | [] => []
  end.

Definition forbidden_host (c : ascii) : bool :=
  bool_decide
    (code c ∈ [0; 9; 10; 13; 32; 35; 47; 58; 60; 62; 63; 64; 91; 92; 93;
               94; 124]%N).

Definition forbidden_domain (c : ascii) : bool :=
  forbidden_host c || (code c <=? 31)%N
  || bool_decide (code c ∈ [37; 127]%N).

(** The parts between the dots; [cur] holds the part read so far, last
    first. *)
Fixpoint split_dots (l cur : list ascii) : list (list ascii) :=
  match l with
  | c :: rest =>
      if bool_decide (code c = 46)%N then rev cur :: split_dots rest []
      else split_dots rest (c :: cur)
  | [] => [rev cur]
  end.

Fixpoint number_in (radix : N) (l : list ascii) (acc : N) : option N :=
  match l with
  | c :: rest =>
      match hex_value c with
      | Some d =>
          if (d <? radix)%N then number_in radix rest (acc * radix + d)%N
          else None
      | None => None
      end
  | [] => Some acc
  end.

(** A part of an IPv4 address: decimal, octal after [0], hexadecimal
    after [0x]. *)
Definition ipv4_number (part : list ascii) : option N :=
  match part with
  | [] => None
  | [_] => number_in 10 part 0
  | z :: x :: rest =>
      if bool_decide (code z = 48)%N then
        if bool_decide (code x ∈ [120; 88]%N) then number_in 16 rest 0
        else number_in 8 (x :: rest) 0
      else number_in 10 part 0
  end.

(** The parts of a host, without one empty last part. *)
Definition ipv4_parts (host : list ascii) : list (list ascii) :=
  let parts := split_dots host [] in
  match rev parts with
  | [] :: (_ :: _) as before => rev before
  | _ => parts
  end.

Definition ends_in_number (host : list ascii) : bool :=
  match rev (ipv4_parts host) with
  | [] :: _ | [] => false
  | (_ :: _) as last :: _ =>
      forallb is_digit last || bool_decide (is_Some (ipv4_number last))
  end.

Definition ipv4_ok (host : list ascii) : bool :=
  let parts := ipv4_parts host in
  if (4 <? length parts)%nat then false
  else
    match mapM ipv4_number parts with
    | Some numbers =>
        match rev numbers with
        | last :: others =>
            forallb (λ n, n <=? 255)%N others
            && (last <? 256 ^ (5 - N.of_nat (length numbers)))%N
        | [] => false
        end
    | None => false
    end.

(** What follows the opening bracket of an IPv6 literal. *)
Definition ipv6_like (l : list ascii) : bool :=
  match rev l with
  | close :: inner =>
      bool_decide (code close = 93)%N
      && forallb
           (λ c, bool_decide (is_Some (hex_value c))
                 || bool_decide (code c ∈ [58; 46]%N))
           inner
  | [] => false
  end.

Definition host_ok (special : bool) (host : list ascii) : bool :=
  match host with
  | c :: rest =>
      if bool_decide (code c = 91)%N then ipv6_like rest
      else if special then
        let domain := map lower (percent_decode host) in
        negb (existsb forbidden_domain domain)
        && (if ends_in_number domain then ipv4_ok domain else true)
      else negb (existsb forbidden_host host)
  | [] => negb special
  end.

Definition port_ok (port : list ascii) : bool :=
  match number_in 10 port 0 with
  | Some n => (n <=? 65535)%N
  | None => false
  end.

(** The authority at the head of [l]: credentials up to the last at-sign,
    then host and port. *)
Definition authority_ok (special : bool) (l : list ascii) : bool :=
  let authority := upto (ends_authority special) l in
  let is_at (c : ascii) := bool_decide (code c = 64)%N in
  match host_and_port (rev (upto is_at (rev authority))) [] false with
  | ([], Some _) => false
  | ([], None) => negb special && negb (existsb is_at authority)
  | (host, Some port) => host_ok special host && port_ok port
  | (host, None) => host_ok special host
  end.

(** A reference relative to the document: only [//host] names a host. *)
Definition relative_ok (l : list ascii) : bool :=
  match l with
  | a :: b :: rest =>
      if is_slash a && is_slash b then authority_ok true (skip_slashes rest)
      else true
  | _ => true
  end.

(** After [file:], a host follows two slashes unless a drive letter
    does. *)
Definition file_ok (l : list ascii) : bool :=
  match l with
  | a :: b :: rest =>
      if is_slash a && is_slash b then
        match upto (ends_authority true) rest with
        | [] => true
        | [d; colon] as host =>
            (is_alpha d && bool_decide (code colon ∈ [58; 124]%N))
            || host_ok true host
        | host => host_ok true host
        end
      else true
  | _ => true
  end.

Definition url_parses (url : string) : bool :=
  let l := preprocess url in
  match scheme_of l with
  | Some (scheme, rest) =>
      if String.eqb scheme "file" then file_ok rest
      else if String.eqb scheme "http" then relative_ok rest
      else if bool_decide (scheme ∈ special_schemes)
      then authority_ok true (skip_slashes rest)
      else
        match rest with
        | a :: b :: rest' =>
            if bool_decide (code a = 47)%N && bool_decide (code b = 47)%N
            then authority_ok false rest'
            else true
        | _ => true
        end
  | None => relative_ok l
  end.

#[global] Instance builtins : Builtins :=
  {| JSON_parse := json_parse;
     Number_toString := λ literal, literal;
     URL_parses := url_parses |}.

(** The event data of the examples. *)
Definition frame_message : string :=
  "{" +:+ quote +:+ "frame" +:+ quote +:+ ":"
      +:+ quote +:+ "/9j/4AAQSkZJRg==" +:+ quote +:+ "}".

Definition truncated_message : string :=
  "{" +:+ quote +:+ "frame" +:+ quote +:+ ":".

Definition metadata_message : string :=
  "{" +:+ quote +:+ "frame_count" +:+ quote +:+ ":10,"
      +:+ quote +:+ "fps" +:+ quote +:+ ":29.97}".
End Reference.

(** ** Runs used by the examples

    The index page mounts both consumers in the reference browser, which
    hands out [1] as the first timer handle and numbers the event sources
    from [1]. *)
Module Runs.
Import VideoStream.
#[local] Existing Instance Reference.builtins.

(** Started and connected, one frame shown; the stale timer is pending. *)
Definition streaming : State :=
  after IndexPage.VideoStream_props
    [call_startStream; open_ 1%N; message 1%N Reference.frame_message]
    (mounted 1 1 (Some "")).

(** No element has the id [frame]; a frame came and the stale timer then
    fired, so the video is marked unavailable. *)
Definition stale_without_element : State :=
  after IndexPage.VideoStream_props
    [call_startStream; open_ 1%N; message 1%N Reference.frame_message;
     timer_fires 1%N]
    (mounted 1 1 None).

(** The metadata panel, started and connected. *)
Definition panel_streaming : MetadataPanel.State :=
  MetadataPanel.after IndexPage.MetadataPanel_props
    [MetadataPanel.call_startStream; MetadataPanel.open_ 1%N]
    (MetadataPanel.mounted 1).
End Runs.

(** ** Notions used by the further properties *)

(** The effects that open or close a connection. *)
Definition is_connection_effect (e : Effect) : bool :=
  match e with
  | NewEventSource _ _ | CloseEventSource _ => true
  | _ => false
  end.

(** The calls of [startStream], [stopStream] and [toggleStream]. *)
Definition is_stream_call (ev : VideoStream.Event) : bool :=
  match ev with
  | VideoStream.call_startStream
  | VideoStream.call_stopStream
  | VideoStream.call_toggleStream => true
  | _ => false
  end.

Definition is_reset (a : VideoStream.Awaiting) : bool :=
  match a with VideoStream.in_resetState => true | _ => false end.

Definition is_mode_change (a : VideoStream.Awaiting) : bool :=
  match a with VideoStream.in_resetState => false | _ => true end.

(** How many of the calls stopped at their [await] are of a kind. *)
Fixpoint in_flight (kind : VideoStream.Awaiting → bool)
    (l : list VideoStream.Awaiting) : nat :=
  match l with
  | [] => 0
  | a :: rest => (if kind a then 1 else 0) + in_flight kind rest
  end.

(** Each in-flight flag is set exactly while one call of its kind is
    stopped at its [await], and a [toggleAggressiveMode] stopped there goes
    on with the successor of the mode held. *)
Record flight_invariant (s : VideoStream.State) : Prop := {
  inv_resets :
    in_flight is_reset (VideoStream.awaiting (refs s))
    = if VideoStream.isResetting (refs s) then 1%nat else 0%nat;
  inv_mode_changes :
    in_flight is_mode_change (VideoStream.awaiting (refs s))
    = if VideoStream.isTogglingMode (refs s) then 1%nat else 0%nat;
  inv_toggle :
    ∀ next,
      VideoStream.in_toggleAggressiveMode next
        ∈ VideoStream.awaiting (refs s) →
      next = VideoStream.newMode (VideoStream.aggressiveMode (refs s));
}.

(** Further runs in the reference browser. *)
Module MoreRuns.
Import VideoStream.
#[local] Existing Instance Reference.builtins.

(** A stream URL the [EventSource] constructor cannot resolve: it names
    no host. *)
Definition unresolvable_props : Props :=
  {| streamUrl := "http://"; timeout := None |}.

(** Streaming, with a reset and a mode toggle both in flight; the second
    click on each button was dropped. *)
Definition requests_in_flight : State :=
  after IndexPage.VideoStream_props
    [call_resetState; call_resetState; call_toggleAggressiveMode;
     call_toggleAggressiveMode]
    Runs.streaming.

(** Stopped, started again, and the new connection failed for good. *)
Definition restarted_and_failed : State :=
  after IndexPage.VideoStream_props
    [call_stopStream; call_startStream; error_event 2%N true]
    Runs.streaming.

Definition empty_object_message : string := "{}".
End MoreRuns.

(** * Properties *)

Local Open Scope list_scope.

(** Unfold a handler down to the state it computes. *)
Ltac step_js :=
  cbv [VideoStream.run MetadataPanel.run exec
       VideoStream.startStream VideoStream.stopStream VideoStream.toggleStream
       VideoStream.onmessage VideoStream.onerror VideoStream.onopen
       VideoStream.stale VideoStream.resetState
       VideoStream.toggleAggressiveMode VideoStream.setAggressiveMode
       VideoStream.resume VideoStream.suspend VideoStream.resetState_resume
       VideoStream.toggleAggressiveMode_resume
       VideoStream.setAggressiveMode_resume
       VideoStream.resetState_try VideoStream.resetState_catch
       VideoStream.toggleAggressiveMode_try
       VideoStream.toggleAggressiveMode_catch
       VideoStream.setAggressiveMode_try VideoStream.setAggressiveMode_catch
       MetadataPanel.startStream MetadataPanel.stopStream
       MetadataPanel.toggleStream MetadataPanel.onmessage
       MetadataPanel.onerror
       bind ret throw try_catch try_finally get modify read write host emit
       console_error setTimeout clearTimeout EventSource_close fetch
       getElementById_frame set_frame_src new_EventSource parse data_frame
       frame_url await update_refs update_world truthy].

(** Split on whatever a handler branches on. *)
Ltac cases :=
  repeat (simpl;
    match goal with
    | |- context [match ?x with _ => _ end] => is_var x; destruct x
    | |- context [if ?x then _ else _] => is_var x; destruct x
    | |- context [orb ?x _] => is_var x; destruct x
    | |- context [URL_parses ?u] => destruct (URL_parses u) eqn:?
    | |- context [JSON_parse ?u] => destruct (JSON_parse u) eqn:?
    | |- context [ToString ?u] => destruct (ToString u) eqn:?
    | |- context [own_property ?u ?v] => destruct (own_property u v) eqn:?
    | |- context [ok ?u] => destruct (ok u) eqn:?
    | |- context [(?a =? ?b)%N] => destruct (N.eqb_spec a b)
    | |- context [@lookup ?a ?b ?c ?d ?u ?v] =>
        destruct (@lookup a b c d u v) eqn:?
    | |- context [decide ?u] => destruct (decide u)
    | |- context [bool_decide ?u] => destruct (bool_decide u) eqn:?
    end);
  simpl.

(** Reduce a lookup in an updated map to lookups in the map before. *)
Ltac lookups H :=
  repeat first
    [ rewrite lookup_insert in H | rewrite lookup_delete in H
    | rewrite lookup_alter in H | rewrite lookup_empty in H | case_decide ];
  simplify_eq.

Ltac unmap :=
  repeat match goal with
    | E : _ <$> ?o = Some _ |- _ => destruct o eqn:?; simpl in E; simplify_eq
    end.

(** The three shapes of goal a source invariant leaves, from the same
    invariant [Ho], [Hf] before the event. *)
Ltac source_goal Ho Hf :=
  lazymatch goal with
  | |- ∀ c es, _ !! c = Some es → _ → _ =>
      intros ? ? Hc Hopen; lookups Hc; unmap; simpl in *;
      try done; try congruence;
      repeat match goal with
        | E : _ !! _ = Some ?e |- _ =>
            let Hne := fresh in
            assert (readyState e ≠ CLOSED) as Hne
              by first [assumption | congruence];
            pose proof (Ho _ _ E Hne); clear E
        end;
      try congruence
  | |- ∀ c, is_Some _ → (_ < _)%N =>
      intros ? [? Hx]; lookups Hx; unmap; try lia;
      try match goal with
        | E : _ !! _ = Some _ |- _ =>
            pose proof (Hf _ (mk_is_Some _ _ E)); lia
        end
  | |- ∀ c, _ = Some c → is_Some _ =>
      intros ? Heq; simplify_eq;
      rewrite ?lookup_insert, ?lookup_alter; repeat case_decide;
      rewrite ?fmap_is_Some; eauto; done
  end.

(** ** Effects and maps *)

Lemma last_scheduled_app (l l' : list Effect) :
  last_scheduled (l ++ l') =
    match last_scheduled l' with
    | Some id => Some id
    | None => last_scheduled l
    end.
Proof.
  induction l as [|e l IH]; simpl.
  - by destruct (last_scheduled l').
  - rewrite IH. by destruct (last_scheduled l').
Qed.

(** A map all of whose keys are the one key held has at most one entry. *)
Lemma held_at_most_one {V} (m : gmap N V) (held : option N) :
  (∀ k, is_Some (m !! k) → held = Some k) → (size m ≤ 1)%nat.
Proof.
  intros Hm.
  assert (∀ k, held ≠ Some k → m !! k = None) as Hnone.
  { intros k Hk. destruct (m !! k) eqn:E; [|done].
    by destruct Hk, (Hm k (mk_is_Some _ _ E)). }
  destruct held as [t|].
  - destruct (m !! t) as [x|] eqn:Ht.
    + assert (m = {[ t := x ]}) as ->; [|by rewrite map_size_singleton].
      apply map_eq. intros k. destruct (decide (t = k)) as [<-|Hne].
      * by rewrite lookup_singleton_eq.
      * rewrite lookup_singleton_ne by done. apply Hnone. congruence.
    + assert (m = ∅) as ->; [|rewrite map_size_empty; lia].
      apply map_empty. intros k. destruct (decide (t = k)) as [<-|Hne]; [done|].
      apply Hnone. congruence.
  - assert (m = ∅) as ->; [|rewrite map_size_empty; lia].
    apply map_empty. intros k. by apply Hnone.
Qed.

Lemma pending_only_handle (pending : gmap N Z) (t : N) :
  (∀ id, is_Some (pending !! id) → Some t = Some id) → delete t pending = ∅.
Proof.
  intros Hp. apply map_empty. intros k.
  rewrite lookup_delete. case_decide; [done|].
  destruct (pending !! k) eqn:Hk; [|done].
  pose proof (Hp k (mk_is_Some _ _ Hk)). congruence.
Qed.

Lemma pending_no_handle (pending : gmap N Z) :
  (∀ id, is_Some (pending !! id) → None = Some id) → pending = ∅.
Proof.
  intros Hp. apply map_empty. intros k.
  destruct (pending !! k) eqn:Hk; [|done].
  pose proof (Hp k (mk_is_Some _ _ Hk)). congruence.
Qed.

Lemma open_sources_at_most_one (w : World) (held : option N) :
  (∀ c es, sources w !! c = Some es → readyState es ≠ CLOSED →
           held = Some c) →
  (size (open_sources w) ≤ 1)%nat.
Proof.
  intros Ho. apply (held_at_most_one _ held). intros c [es Hc].
  apply map_lookup_filter_Some in Hc as [Hc Hopen]. by eapply Ho.
Qed.

(** Once the source held is closed, none is open. *)
Lemma closed_not_open (m : gmap N EventSource) (held : option N) :
  (∀ c es, m !! c = Some es → readyState es ≠ CLOSED → held = Some c) →
  filter (λ entry : N * EventSource, readyState entry.2 ≠ CLOSED)
    (match held with
     | Some c => alter close_state c m
     | None => m
     end) = ∅.
Proof.
  intros Ho. apply map_empty. intros k.
  apply map_lookup_filter_None. right. intros es Hes Hopen. simpl in *.
  destruct held as [c|].
  - rewrite lookup_alter in Hes. case_decide; subst.
    + destruct (m !! k); simpl in Hes; simplify_eq; by apply Hopen.
    + pose proof (Ho _ _ Hes Hopen). congruence.
  - pose proof (Ho _ _ Hes Hopen). congruence.
Qed.

(** ** The invariants hold in every reachable state *)

Section VideoStreamInvariants.
Import VideoStream.
Context `{!Builtins} (props : Props).

Lemma reachable_after events s :
  reachable props s → reachable props (after props events s).
Proof.
  revert s. induction events as [|ev rest IH]; intros s Hs; [done|].
  simpl. apply IH. destruct (handle props ev s) eqn:Hev; [|done].
  by eapply reachable_handle.
Qed.

Lemma timer_invariant_handle s ev s' :
  timer_invariant s → handle props ev s = Some s' → timer_invariant s'.
Proof.
  intros [Hnt Hp Hh] Hev.
  destruct s as [[] []]. simpl in *. destruct ev; simpl in Hev;
    revert Hev; step_js; cases; intros ?; simplify_eq.
  all: try (exfalso; by destruct (Hh 0%N eq_refl)).
  all: split; simpl; try assumption; try lia.
  all: try (intros ? [? Hx]; lookups Hx; eauto;
            pose proof (Hp _ (mk_is_Some _ _ Hx)); congruence).
  all: intros ? Hk; rewrite ?last_scheduled_app; simpl; simplify_eq; eauto.
Qed.

Lemma reachable_timer_invariant s : reachable props s → timer_invariant s.
Proof.
  induction 1 as [t c f Hne|s ev s' _ IH Hev].
  - split; simpl; [done| |done].
    intros id [x Hx]. by rewrite lookup_empty in Hx.
  - by eapply timer_invariant_handle.
Qed.

Lemma source_invariant_handle s ev s' :
  source_invariant s → handle props ev s = Some s' → source_invariant s'.
Proof.
  intros [Ho Hf Hd] Hev.
  destruct s as [[] []]. simpl in *. destruct ev; simpl in Hev;
    revert Hev; step_js; cases; intros ?; simplify_eq.
  all: split; simpl; try assumption.
  all: source_goal Ho Hf.
Qed.

Lemma reachable_source_invariant s : reachable props s → source_invariant s.
Proof.
  induction 1 as [t c f Hne|s ev s' _ IH Hev].
  - split; simpl; [| |done].
    + intros c' es Hc. by rewrite lookup_empty in Hc.
    + intros c' [x Hx]. by rewrite lookup_empty in Hx.
  - by eapply source_invariant_handle.
Qed.
End VideoStreamInvariants.

Section MetadataPanelInvariants.
Import MetadataPanel.
Context `{!Builtins} (props : Props).

Lemma panel_reachable_after events s :
  reachable props s → reachable props (after props events s).
Proof.
  revert s. induction events as [|ev rest IH]; intros s Hs; [done|].
  simpl. apply IH. destruct (handle props ev s) eqn:Hev; [|done].
  by eapply reachable_handle.
Qed.

Lemma panel_source_invariant_handle s ev s' :
  source_invariant s → handle props ev s = Some s' → source_invariant s'.
Proof.
  intros [Ho Hf Hd] Hev.
  destruct s as [[] []]. simpl in *. destruct ev; simpl in Hev;
    revert Hev; step_js; cases; intros ?; simplify_eq.
  all: split; simpl; try assumption.
  all: source_goal Ho Hf.
Qed.

Lemma panel_reachable_source_invariant s :
  reachable props s → source_invariant s.
Proof.
  induction 1 as [c|s ev s' _ IH Hev].
  - split; simpl; [| |done].
    + intros c' es Hc. by rewrite lookup_empty in Hc.
    + intros c' [x Hx]. by rewrite lookup_empty in Hx.
  - by eapply panel_source_invariant_handle.
Qed.
End MetadataPanelInvariants.

(** ** The frame stream consumer: messages and the stale timer *)

Section FrameMessages.
Import VideoStream.
Context `{!Builtins} (props : Props).

(** C1, amended: in every reachable state of the frame stream consumer,
    [timeoutId] is unset or is the handle of the timer scheduled last,
    and every pending stale timer is the one [timeoutId] holds, so at
    most one is pending.  A message whose handler runs without an
    exception (the payload parses and, when an element with id [frame]
    exists, the frame can be read and converted) clears the timer held
    and only then schedules the new one, which is then the only one
    pending; a message whose handler throws schedules and clears nothing,
    and reports the failure. *)
Theorem stale_timeout_single (s : State) :
  reachable props s →
  (timeoutId (refs s) = None
   ∨ timeoutId (refs s) = last_scheduled (log (world s)))
  ∧ (∀ id, is_Some (timers (world s) !! id) → timeoutId (refs s) = Some id)
  ∧ (size (timers (world s)) ≤ 1)%nat
  ∧ ∀ event_data,
      let s' := exec (onmessage props event_data) s in
      let rescheduled (shown : list Effect) :=
        log (world s') =
          ((log (world s) ++ shown)
             ++ match timeoutId (refs s) with
                | Some previous => [ClearTimeout previous]
                | None => []
                end)
            ++ [SetTimeout (next_timer (world s)) (props_timeout props)]
        ∧ timers (world s') =
            {[ next_timer (world s) := props_timeout props ]}
        ∧ timeoutId (refs s') = Some (next_timer (world s)) in
      let failed :=
        log (world s') =
          log (world s) ++ [ConsoleError "Failed to parse frame data:";
                            Emit (error_ "Failed to parse frame data")]
        ∧ timers (world s') = timers (world s)
        ∧ timeoutId (refs s') = timeoutId (refs s) in
      match JSON_parse event_data with
      | None => failed
      | Some data =>
          match frame_element (world s) with
          | None => rescheduled []
          | Some _ =>
              match (bind (data_frame data) frame_url s).1 with
              | Ok src => rescheduled [SetFrameSrc src]
              | Throw _ => failed
              end
          end
      end.
Proof.
  intros Hs. apply reachable_timer_invariant in Hs.
  split_and!.
  - destruct Hs as [_ _ Hh].
    destruct (timeoutId (refs s)) as [t|]; [right|by left].
    by destruct (Hh t eq_refl) as [_ ->].
  - by destruct Hs.
  - destruct Hs as [_ Hp _]. by eapply held_at_most_one.
  - intros event_data. destruct Hs as [Hnt Hp Hh].
    destruct s as [[] [? ? ? ? element ?]]. simpl in *.
    step_js; cases.
    all: try (exfalso; subst; by destruct (Hh _ eq_refl)).
    all: rewrite ?app_nil_r, <- ?app_assoc; simpl; split_and!; try done.
    all: rewrite ?(pending_only_handle _ _ Hp), ?(pending_no_handle _ Hp).
    all: by rewrite insert_empty.
Qed.

(** C2, amended: for every well-formed frame message handled in a
    reachable state while an element with id [frame] exists, afterwards
    "has displayed a frame" is true, "video unavailable" is false, the
    element shows the frame, and the stale timer held has been cleared
    and a new one scheduled for [props.timeout] milliseconds, the only
    one pending. *)
Theorem frame_message_shown (s : State) (event_data base64 : string) :
  reachable props s →
  frame_message event_data base64 →
  is_Some (frame_element (world s)) →
  let s' := exec (onmessage props event_data) s in
  hasLastFrame (refs s') = true
  ∧ isVideoUnavailable (refs s') = false
  ∧ frame_element (world s') = Some ("data:image/jpeg;base64," +:+ base64)
  ∧ timers (world s') = {[ next_timer (world s) := props_timeout props ]}
  ∧ timeoutId (refs s') = Some (next_timer (world s))
  ∧ log (world s') =
      ((log (world s) ++ [SetFrameSrc ("data:image/jpeg;base64," +:+ base64)])
         ++ match timeoutId (refs s) with
            | Some previous => [ClearTimeout previous]
            | None => []
            end)
        ++ [SetTimeout (next_timer (world s)) (props_timeout props)].
Proof.
  intros Hs (members & Hparse & Hframe) [src Hel].
  apply reachable_timer_invariant in Hs. destruct Hs as [Hnt Hp Hh].
  destruct s as [[] []]. simpl in *. subst.
  step_js. rewrite Hparse. simpl. rewrite Hframe. cases.
  all: try (exfalso; subst; by destruct (Hh _ eq_refl)).
  all: rewrite ?app_nil_r; split_and!; try done.
  all: rewrite ?(pending_only_handle _ _ Hp), ?(pending_no_handle _ Hp).
  all: by rewrite insert_empty.
Qed.

(** C3: for every payload [JSON.parse] rejects, the message handler sets
    "video unavailable", emits the error notification "Failed to parse
    frame data", and closes nothing: [isRunning], [frameSource] and the
    event sources are as before (and so are the stale timer and "has
    displayed a frame"). *)
Theorem malformed_frame_message (s : State) (event_data : string) :
  JSON_parse event_data = None →
  let s' := exec (onmessage props event_data) s in
  isVideoUnavailable (refs s') = true
  ∧ log (world s') =
      log (world s) ++ [ConsoleError "Failed to parse frame data:";
                        Emit (error_ "Failed to parse frame data")]
  ∧ isRunning (refs s') = isRunning (refs s)
  ∧ frameSource (refs s') = frameSource (refs s)
  ∧ sources (world s') = sources (world s)
  ∧ timeoutId (refs s') = timeoutId (refs s)
  ∧ timers (world s') = timers (world s)
  ∧ hasLastFrame (refs s') = hasLastFrame (refs s).
Proof.
  intros Hparse. destruct s as [[] []].
  step_js. rewrite Hparse. simpl. by rewrite <- app_assoc.
Qed.

(** C9: a well-formed frame message handled in a reachable state sets
    "has displayed a frame" and clears "video unavailable" when an
    element with id [frame] exists; when there is none, both flags stay
    as they were and nothing is shown; in both cases the stale timer held
    is cleared and a new one is scheduled for [props.timeout]
    milliseconds. *)
Theorem frame_message_needs_element (s : State)
    (event_data base64 : string) :
  reachable props s →
  frame_message event_data base64 →
  let s' := exec (onmessage props event_data) s in
  match frame_element (world s) with
  | Some _ =>
      hasLastFrame (refs s') = true ∧ isVideoUnavailable (refs s') = false
  | None =>
      hasLastFrame (refs s') = hasLastFrame (refs s)
      ∧ isVideoUnavailable (refs s') = isVideoUnavailable (refs s)
      ∧ frame_element (world s') = None
  end
  ∧ timers (world s') = {[ next_timer (world s) := props_timeout props ]}
  ∧ timeoutId (refs s') = Some (next_timer (world s))
  ∧ ∃ shown,
      last_scheduled shown = None
      ∧ log (world s') =
          ((log (world s) ++ shown)
             ++ match timeoutId (refs s) with
                | Some previous => [ClearTimeout previous]
                | None => []
                end)
            ++ [SetTimeout (next_timer (world s)) (props_timeout props)].
Proof.
  intros Hs (members & Hparse & Hframe).
  apply reachable_timer_invariant in Hs. destruct Hs as [Hnt Hp Hh].
  destruct s as [[] [? ? ? ? element ?]]. simpl in *.
  step_js. rewrite Hparse. destruct element; simpl;
    rewrite ?Hframe; cases.
  all: try (exfalso; subst; by destruct (Hh _ eq_refl)).
  all: split_and!; try done.
  all: rewrite ?(pending_only_handle _ _ Hp), ?(pending_no_handle _ Hp).
  all: try by rewrite insert_empty.
  all: first [ by exists []; rewrite ?app_nil_r
             | by eexists [SetFrameSrc _]; rewrite ?app_nil_r ].
Qed.
End FrameMessages.

(** ** One connection per consumer *)

Section OneConnection.
Context `{!Builtins}.

(** C4: in every reachable state of either consumer at most one event
    source is not closed, and it is the one the consumer holds;
    [startStream], called while a source is held, closes that source
    before it constructs the new one; and [startStream], called in any
    reachable state, closes the source held if there is one and then,
    when the URL resolves, constructs the new source, which the
    consumer holds and which is the only one open afterwards. *)
Theorem at_most_one_connection
    (vprops : VideoStream.Props) (vs : VideoStream.State)
    (mprops : MetadataPanel.Props) (ms : MetadataPanel.State) :
  VideoStream.reachable vprops vs →
  MetadataPanel.reachable mprops ms →
  ((size (open_sources (world vs)) ≤ 1)%nat
   ∧ (∀ c, is_Some (open_sources (world vs) !! c) →
           VideoStream.frameSource (refs vs) = Some c)
   ∧ (∀ c, VideoStream.frameSource (refs vs) = Some c →
       let vs' := exec (VideoStream.startStream vprops) vs in
       open_sources (world vs') !! c = None
       ∧ log (world vs') =
           log (world vs) ++ CloseEventSource c ::
             (if URL_parses (VideoStream.streamUrl vprops)
              then [NewEventSource (next_source (world vs))
                      (VideoStream.streamUrl vprops);
                    Emit (statusChanged true)]
              else []))
   ∧ (let vs' := exec (VideoStream.startStream vprops) vs in
      log (world vs') =
        (log (world vs)
           ++ match VideoStream.frameSource (refs vs) with
              | Some c => [CloseEventSource c]
              | None => []
              end)
          ++ (if URL_parses (VideoStream.streamUrl vprops)
              then [NewEventSource (next_source (world vs))
                      (VideoStream.streamUrl vprops);
                    Emit (statusChanged true)]
              else [])
      ∧ if URL_parses (VideoStream.streamUrl vprops)
        then VideoStream.frameSource (refs vs')
               = Some (next_source (world vs))
             ∧ open_sources (world vs') =
                 {[ next_source (world vs) :=
                      {| es_url := VideoStream.streamUrl vprops;
                         readyState := CONNECTING |} ]}
        else VideoStream.frameSource (refs vs')
               = VideoStream.frameSource (refs vs)
             ∧ open_sources (world vs') = ∅))
  ∧ ((size (open_sources (world ms)) ≤ 1)%nat
     ∧ (∀ c, is_Some (open_sources (world ms) !! c) →
             MetadataPanel.metadataSource (refs ms) = Some c)
     ∧ (∀ c, MetadataPanel.metadataSource (refs ms) = Some c →
         let ms' := exec (MetadataPanel.startStream mprops) ms in
         open_sources (world ms') !! c = None
         ∧ log (world ms') =
             log (world ms) ++ CloseEventSource c ::
               (if URL_parses (MetadataPanel.streamUrl mprops)
                then [NewEventSource (next_source (world ms))
                        (MetadataPanel.streamUrl mprops);
                      Emit (statusChanged true)]
                else []))
     ∧ (let ms' := exec (MetadataPanel.startStream mprops) ms in
        log (world ms') =
          (log (world ms)
             ++ match MetadataPanel.metadataSource (refs ms) with
                | Some c => [CloseEventSource c]
                | None => []
                end)
            ++ (if URL_parses (MetadataPanel.streamUrl mprops)
                then [NewEventSource (next_source (world ms))
                        (MetadataPanel.streamUrl mprops);
                      Emit (statusChanged true)]
                else [])
        ∧ if URL_parses (MetadataPanel.streamUrl mprops)
          then MetadataPanel.metadataSource (refs ms')
                 = Some (next_source (world ms))
               ∧ open_sources (world ms') =
                   {[ next_source (world ms) :=
                        {| es_url := MetadataPanel.streamUrl mprops;
                           readyState := CONNECTING |} ]}
          else MetadataPanel.metadataSource (refs ms')
                 = MetadataPanel.metadataSource (refs ms)
               ∧ open_sources (world ms') = ∅)).
Proof.
  intros Hv Hm.
  apply reachable_source_invariant in Hv. destruct Hv as [Ho Hf Hd].
  apply panel_reachable_source_invariant in Hm.
  destruct Hm as [Ho' Hf' Hd'].
  split; split_and!.
  - by eapply open_sources_at_most_one.
  - intros c [es Hc]. apply map_lookup_filter_Some in Hc as [Hc Hopen].
    by eapply Ho.
  - intros c Hc. destruct (Hd c Hc) as [es Hes].
    pose proof (Hf c (mk_is_Some _ _ Hes)) as Hlt.
    destruct vs as [[] []]. simpl in *. subst.
    step_js; simpl; destruct (URL_parses _); simpl.
    all: split; [|by rewrite <- ?app_assoc].
    all: apply map_lookup_filter_None; right; intros es' Hes'; simpl in *.
    all: lookups Hes'; unmap; simpl; try lia; by intros [].
  - pose proof (closed_not_open _ _ Ho) as Hclosed.
    destruct vs as [[? ? ? ? ? ? ? held ?] [? ? srcs ? ? ?]]. simpl in *.
    unfold open_sources. step_js.
    destruct (URL_parses _), held; simpl in *.
    all: rewrite ?app_nil_r, <- ?app_assoc; simpl; split_and!; try done.
    all: rewrite map_filter_insert_True by done.
    all: by rewrite Hclosed, insert_empty.
  - by eapply open_sources_at_most_one.
  - intros c [es Hc]. apply map_lookup_filter_Some in Hc as [Hc Hopen].
    by eapply Ho'.
  - intros c Hc. destruct (Hd' c Hc) as [es Hes].
    pose proof (Hf' c (mk_is_Some _ _ Hes)) as Hlt.
    destruct ms as [[] []]. simpl in *. subst.
    step_js; simpl; destruct (URL_parses _); simpl.
    all: split; [|by rewrite <- ?app_assoc].
    all: apply map_lookup_filter_None; right; intros es' Hes'; simpl in *.
    all: lookups Hes'; unmap; simpl; try lia; by intros [].
  - pose proof (closed_not_open _ _ Ho') as Hclosed.
    destruct ms as [[? ? held] [? ? srcs ? ? ?]]. simpl in *.
    unfold open_sources. step_js.
    destruct (URL_parses _), held; simpl in *.
    all: rewrite ?app_nil_r, <- ?app_assoc; simpl; split_and!; try done.
    all: rewrite map_filter_insert_True by done.
    all: by rewrite Hclosed, insert_empty.
Qed.
End OneConnection.

(** ** The mode and reset controls *)

Section Controls.
Import VideoStream.
Context `{!Builtins} (props : Props).

(** The index computed by [toggleAggressiveMode] is one of [modes]. *)
Lemma nextIndex_in_range (current : AggressiveMode) :
  0 ≤ nextIndex current
  ∧ modes !! Z.to_nat (nextIndex current) = Some (newMode current).
Proof. by destruct current. Qed.

(** C5: [toggleAggressiveMode] computes the next mode in the cycle idle,
    chasing, explosion, idle; up to the [await] it sends that mode and
    leaves [aggressiveMode] as it was; when the request succeeds the mode
    held becomes the one sent; when it fails (a status outside 200..299,
    or a rejected [fetch]) the mode held stays as it was and an error
    notification is emitted.  The in-flight flag is cleared either way. *)
Theorem toggleAggressiveMode_cycles (s : State) :
  isTogglingMode (refs s) = false →
  let s1 := exec toggleAggressiveMode s in
  let next := newMode (aggressiveMode (refs s)) in
  newMode idle = chasing ∧ newMode chasing = explosion
  ∧ newMode explosion = idle
  ∧ aggressiveMode (refs s1) = aggressiveMode (refs s)
  ∧ isTogglingMode (refs s1) = true
  ∧ awaiting (refs s1) = awaiting (refs s) ++ [in_toggleAggressiveMode next]
  ∧ log (world s1) = log (world s) ++ [Fetch (config_request next)]
  ∧ ∀ (s2 : State) (settled : Settled),
      let s3 := exec (toggleAggressiveMode_resume next settled) s2 in
      isTogglingMode (refs s3) = false
      ∧ match settled with
        | Fulfilled response =>
            if ok response then
              aggressiveMode (refs s3) = next
              ∧ log (world s3) =
                  log (world s2)
                    ++ [Emit (statusChanged (isRunning (refs s2)))]
            else
              aggressiveMode (refs s3) = aggressiveMode (refs s2)
              ∧ log (world s3) =
                  log (world s2)
                    ++ [ConsoleError "Toggle aggressive mode error:";
                        Emit (error_
                                ("Toggle aggressive mode failed: "
                                   +:+ "Config update failed: "
                                   +:+ pretty (status response)))]
        | Rejected reason =>
            aggressiveMode (refs s3) = aggressiveMode (refs s2)
            ∧ log (world s3) =
                log (world s2)
                  ++ [ConsoleError "Toggle aggressive mode error:";
                      Emit (error_ ("Toggle aggressive mode failed: "
                                      +:+ message_of reason))]
        end.
Proof.
  intros Hfree. destruct s as [[] []]. simpl in *. subst.
  split_and!; try done.
  intros [[] []] [response|reason]; step_js; cases;
    rewrite <- ?app_assoc; done.
Qed.

(** C6: [resetState] does nothing while a reset is in flight and
    otherwise sets the flag and sends the request; once the [fetch] has
    settled, a status outside 200..299 makes the [try] block throw an
    error whose message carries the status, every failure emits an error
    notification with the message of what was thrown, and the in-flight
    flag is cleared whatever the outcome. *)
Theorem resetState_clears_flag (s0 s : State) (settled : Settled) :
  (if isResetting (refs s0) then resetState s0 = (Ok tt, s0)
   else
     let s1 := exec resetState s0 in
     isResetting (refs s1) = true
     ∧ awaiting (refs s1) = awaiting (refs s0) ++ [in_resetState]
     ∧ log (world s1) = log (world s0) ++ [Fetch resetState_request])
  ∧
  let s' := exec (resetState_resume settled) s in
  isResetting (refs s') = false
  ∧ match settled with
    | Fulfilled response =>
        if ok response then
          (resetState_try settled s).1 = Ok tt
          ∧ log (world s') =
              log (world s) ++ [Emit (statusChanged (isRunning (refs s)))]
        else
          (resetState_try settled s).1 =
            Throw (ErrorObject
                     ("Reset failed: " +:+ pretty (status response)))
          ∧ log (world s') =
              log (world s)
                ++ [ConsoleError "Reset state error:";
                    Emit (error_ ("Reset state failed: " +:+ "Reset failed: "
                                    +:+ pretty (status response)))]
    | Rejected reason =>
        (resetState_try settled s).1 = Throw reason
        ∧ log (world s') =
            log (world s)
              ++ [ConsoleError "Reset state error:";
                  Emit (error_ ("Reset state failed: "
                                  +:+ message_of reason))]
    end.
Proof.
  split.
  - destruct s0 as [[] []]. step_js; cases; done.
  - destruct s as [[] []], settled as [response|reason]; step_js; cases;
      rewrite <- ?app_assoc; done.
Qed.

(** C7: [setAggressiveMode(mode)] called while a mode change is in
    flight, or with the mode already held, returns at once: the state,
    with its requests and notifications, is as before. *)
Theorem setAggressiveMode_noop (s : State) (mode : AggressiveMode) :
  isTogglingMode (refs s) = true ∨ aggressiveMode (refs s) = mode →
  setAggressiveMode mode s = (Ok tt, s).
Proof.
  intros Hguard. destruct s as [[] []]. simpl in *.
  step_js. simpl. destruct Hguard as [->| ->]; [done|].
  rewrite bool_decide_eq_true_2 by done. by rewrite orb_true_r.
Qed.

(** An event adds no [fetch] but those of the three controls. *)
Lemma fetches_handle s ev s' :
  handle props ev s = Some s' →
  ∀ r, Fetch r ∈ log (world s') →
       Fetch r ∈ log (world s)
       ∨ r = resetState_request ∨ ∃ mode, r = config_request mode.
Proof.
  intros Hev. destruct s as [[] []]. simpl in *.
  destruct ev; simpl in Hev; revert Hev; step_js; cases;
    intros ?; simplify_eq; simpl; intros r Hr.
  all: rewrite ?elem_of_app, ?list_elem_of_singleton in Hr.
  all: destruct_or?; simplify_eq; eauto.
Qed.

(** C10: every request the component has sent in a reachable state goes
    to [http://localhost:8000] ([/increment] for [resetState], [/config]
    for the two mode functions), which is not the base address
    [http://192.168.66.120:8000] the index page derives both stream URLs
    from. *)
Theorem control_requests_base (s : State) :
  reachable props s →
  (∀ r, Fetch r ∈ log (world s) →
        req_url r = "http://localhost:8000" +:+ "/increment"
        ∨ req_url r = "http://localhost:8000" +:+ "/config")
  ∧ req_url resetState_request = "http://localhost:8000" +:+ "/increment"
  ∧ (∀ mode, req_url (config_request mode)
             = "http://localhost:8000" +:+ "/config")
  ∧ IndexPage.baseUrl = "http://192.168.66.120:8000"
  ∧ IndexPage.baseUrl ≠ "http://localhost:8000"
  ∧ IndexPage.frameStreamUrl = IndexPage.baseUrl +:+ "/stream/frame"
  ∧ IndexPage.metadataStreamUrl = IndexPage.baseUrl +:+ "/stream/metadata".
Proof.
  intros Hs. split_and!; try done.
  induction Hs as [t c f Hne|s ev s' _ IH Hev]; intros r Hr.
  - simpl in Hr. by apply elem_of_nil in Hr.
  - destruct (fetches_handle _ _ _ Hev r Hr) as [Hold|[->|[m ->]]]; auto.
Qed.
End Controls.

(** ** The metadata stream consumer *)

Section MetadataMessages.
Import MetadataPanel.
Context `{!Builtins}.

(** C8: a payload [JSON.parse] rejects leaves the snapshot held as it
    was and emits the error notification "Failed to parse metadata"; a
    payload it accepts replaces the snapshot by the parsed value, which
    the data-received notification carries.  The connection is untouched
    either way. *)
Theorem metadata_message_replaces (s : State) (event_data : string) :
  let s' := exec (onmessage event_data) s in
  match JSON_parse event_data with
  | Some data =>
      metadata (refs s') = data
      ∧ log (world s') = log (world s) ++ [Emit (dataReceived data)]
  | None =>
      metadata (refs s') = metadata (refs s)
      ∧ log (world s') =
          log (world s) ++ [ConsoleError "Failed to parse metadata:";
                            Emit (error_ "Failed to parse metadata")]
  end
  ∧ isRunning (refs s') = isRunning (refs s)
  ∧ metadataSource (refs s') = metadataSource (refs s)
  ∧ sources (world s') = sources (world s).
Proof.
  destruct s as [[] []]. step_js; cases; by rewrite <- ?app_assoc.
Qed.
End MetadataMessages.

(** ** The claims at work on the runs of the examples *)

Section Witnesses.
Import VideoStream.
#[local] Existing Instance Reference.builtins.

Local Abbreviation props := IndexPage.VideoStream_props.

Lemma reachable_streaming : reachable props Runs.streaming.
Proof. apply reachable_after, reachable_mounted. done. Qed.

Lemma reachable_stale_without_element :
  reachable props Runs.stale_without_element.
Proof. apply reachable_after, reachable_mounted. done. Qed.

Lemma reachable_panel_streaming :
  MetadataPanel.reachable IndexPage.MetadataPanel_props Runs.panel_streaming.
Proof. apply panel_reachable_after, MetadataPanel.reachable_mounted. Qed.

Lemma frame_message_reference :
  frame_message Reference.frame_message "/9j/4AAQSkZJRg==".
Proof. eexists. split; vm_compute; reflexivity. Qed.

(** While streaming, the one pending timer is the one held, numbered 1;
    the next frame clears it and then schedules timer 2, the only one
    pending afterwards; a payload cut short leaves timer 1 as it is. *)
Lemma stale_timeout_single_witness :
  let s := Runs.streaming in
  let s' := exec (onmessage props Reference.frame_message) s in
  let s'' := exec (onmessage props Reference.truncated_message) s in
  reachable props s
  ∧ timeoutId (refs s) = Some 1%N
  ∧ timeoutId (refs s) = last_scheduled (log (world s))
  ∧ (size (timers (world s)) ≤ 1)%nat
  ∧ (log (world s') =
       ((log (world s)
           ++ [SetFrameSrc "data:image/jpeg;base64,/9j/4AAQSkZJRg=="])
          ++ [ClearTimeout 1%N])
         ++ [SetTimeout 2%N 5000]
     ∧ timers (world s') = {[ 2%N := 5000 ]}
     ∧ timeoutId (refs s') = Some 2%N)
  ∧ (log (world s'') =
       log (world s) ++ [ConsoleError "Failed to parse frame data:";
                         Emit (error_ "Failed to parse frame data")]
     ∧ timers (world s'') = timers (world s)
     ∧ timeoutId (refs s'') = Some 1%N).
Proof.
  split; [apply reachable_streaming|].
  destruct (stale_timeout_single props Runs.streaming reachable_streaming)
    as (Hlast & _ & Hsize & Hmessage).
  split; [vm_compute; reflexivity|].
  split.
  { destruct Hlast as [Hnone|Hlast]; [|exact Hlast].
    vm_compute in Hnone. discriminate Hnone. }
  split; [exact Hsize|].
  split.
  - exact (Hmessage Reference.frame_message).
  - exact (Hmessage Reference.truncated_message).
Defined.

(** C1 as stated fails for a message whose payload does not parse: while
    streaming, with timer 1 pending, a payload cut short is handled by
    the catch block only; timer 1 is still pending afterwards, no timer
    was cleared and none was scheduled. *)
Lemma malformed_message_keeps_timer :
  let s := Runs.streaming in
  let s' := exec (onmessage props Reference.truncated_message) s in
  reachable props s
  ∧ handle props (message 1%N Reference.truncated_message) s = Some s'
  ∧ timers (world s) = {[ 1%N := 5000 ]}
  ∧ timers (world s') = {[ 1%N := 5000 ]}
  ∧ next_timer (world s') = next_timer (world s)
  ∧ log (world s') =
      log (world s) ++ [ConsoleError "Failed to parse frame data:";
                        Emit (error_ "Failed to parse frame data")].
Proof.
  split_and!.
  - apply reachable_streaming.
  - vm_compute. reflexivity.
  - vm_compute. reflexivity.
  - vm_compute. reflexivity.
  - vm_compute. reflexivity.
  - vm_compute. reflexivity.
Qed.

(** C2 as stated fails where no element has the id [frame]: after the
    stale timer has fired, a well-formed frame message leaves "has
    displayed a frame" false and "video unavailable" true. *)
Lemma frame_message_without_element :
  let s := Runs.stale_without_element in
  let s' := exec (onmessage props Reference.frame_message) s in
  reachable props s
  ∧ frame_message Reference.frame_message "/9j/4AAQSkZJRg=="
  ∧ handle props (message 1%N Reference.frame_message) s = Some s'
  ∧ hasLastFrame (refs s') = false
  ∧ isVideoUnavailable (refs s') = true.
Proof.
  split_and!.
  - apply reachable_stale_without_element.
  - apply frame_message_reference.
  - vm_compute. reflexivity.
  - vm_compute. reflexivity.
  - vm_compute. reflexivity.
Qed.

Lemma frame_message_shown_witness :
  let s := Runs.streaming in
  let s' := exec (onmessage props Reference.frame_message) s in
  (reachable props s
   ∧ frame_message Reference.frame_message "/9j/4AAQSkZJRg=="
   ∧ is_Some (frame_element (world s)))
  ∧ hasLastFrame (refs s') = true
  ∧ isVideoUnavailable (refs s') = false
  ∧ frame_element (world s')
    = Some ("data:image/jpeg;base64," +:+ "/9j/4AAQSkZJRg==")
  ∧ timers (world s') = {[ 2%N := 5000 ]}
  ∧ timeoutId (refs s') = Some 2%N
  ∧ log (world s') =
      ((log (world s)
          ++ [SetFrameSrc ("data:image/jpeg;base64," +:+ "/9j/4AAQSkZJRg==")])
         ++ [ClearTimeout 1%N])
        ++ [SetTimeout 2%N 5000].
Proof.
  assert (is_Some (frame_element (world Runs.streaming))) as Hel
    by (vm_compute; eauto).
  split; [split_and!; [apply reachable_streaming
                      |apply frame_message_reference|exact Hel]|].
  exact (frame_message_shown props Runs.streaming _ _
           reachable_streaming frame_message_reference Hel).
Defined.

Lemma malformed_frame_message_witness :
  let s := Runs.streaming in
  let s' := exec (onmessage props Reference.truncated_message) s in
  JSON_parse Reference.truncated_message = None
  ∧ isVideoUnavailable (refs s') = true
  ∧ log (world s') =
      log (world s) ++ [ConsoleError "Failed to parse frame data:";
                        Emit (error_ "Failed to parse frame data")]
  ∧ isRunning (refs s') = true
  ∧ frameSource (refs s') = Some 1%N
  ∧ sources (world s') = sources (world s).
Proof.
  assert (JSON_parse Reference.truncated_message = None) as Hparse
    by (vm_compute; reflexivity).
  split; [exact Hparse|].
  destruct (malformed_frame_message props Runs.streaming _ Hparse)
    as (Hu & Hl & Hr & Hf & Hs & _).
  split_and!; [exact Hu|exact Hl| | |exact Hs].
  - rewrite Hr. vm_compute. reflexivity.
  - rewrite Hf. vm_compute. reflexivity.
Defined.

(** Both consumers of the index page, each holding its source 1:
    [startStream] closes source 1 and then constructs source 2, which is
    held and the only one open afterwards. *)
Lemma at_most_one_connection_witness :
  let vs := Runs.streaming in
  let ms := Runs.panel_streaming in
  let vs' := exec (startStream props) vs in
  let ms' :=
    exec (MetadataPanel.startStream IndexPage.MetadataPanel_props) ms in
  (reachable props vs
   ∧ MetadataPanel.reachable IndexPage.MetadataPanel_props ms)
  ∧ (size (open_sources (world vs)) ≤ 1)%nat
  ∧ (size (open_sources (world ms)) ≤ 1)%nat
  ∧ open_sources (world vs') !! 1%N = None
  ∧ log (world vs') =
      log (world vs)
        ++ [CloseEventSource 1%N;
            NewEventSource 2%N IndexPage.frameStreamUrl;
            Emit (statusChanged true)]
  ∧ open_sources (world ms') !! 1%N = None
  ∧ (frameSource (refs vs) = Some 1%N
     ∧ frameSource (refs vs') = Some 2%N
     ∧ open_sources (world vs') =
         {[ 2%N := {| es_url := IndexPage.frameStreamUrl;
                      readyState := CONNECTING |} ]})
  ∧ (MetadataPanel.metadataSource (refs ms) = Some 1%N
     ∧ log (world ms') =
         log (world ms)
           ++ [CloseEventSource 1%N;
               NewEventSource 2%N IndexPage.metadataStreamUrl;
               Emit (statusChanged true)]
     ∧ MetadataPanel.metadataSource (refs ms') = Some 2%N
     ∧ open_sources (world ms') =
         {[ 2%N := {| es_url := IndexPage.metadataStreamUrl;
                      readyState := CONNECTING |} ]}).
Proof.
  split; [split; [apply reachable_streaming|apply reachable_panel_streaming]|].
  assert (frameSource (refs Runs.streaming) = Some 1%N) as Hheld
    by (vm_compute; reflexivity).
  assert (MetadataPanel.metadataSource (refs Runs.panel_streaming)
          = Some 1%N) as Hheld'
    by (vm_compute; reflexivity).
  destruct (at_most_one_connection props Runs.streaming
              IndexPage.MetadataPanel_props Runs.panel_streaming
              reachable_streaming reachable_panel_streaming)
    as [(Hv1 & _ & Hv3 & _ & Hv4) (Hm1 & _ & Hm3 & _ & Hm4)].
  destruct (Hv3 1%N Hheld) as [Hclosed Hlog].
  destruct (Hm3 1%N Hheld') as [Hclosed' Hlog'].
  split_and!;
    [exact Hv1|exact Hm1|exact Hclosed|exact Hlog|exact Hclosed'
    |exact Hheld|exact (proj1 Hv4)|exact (proj2 Hv4)
    |exact Hheld'|exact Hlog'|exact (proj1 Hm4)|exact (proj2 Hm4)].
Defined.

Lemma toggleAggressiveMode_cycles_witness :
  let s := Runs.streaming in
  let s1 := exec toggleAggressiveMode s in
  let failed := Fulfilled {| status := 500 |} in
  let succeeded := Fulfilled {| status := 200 |} in
  isTogglingMode (refs s) = false
  ∧ aggressiveMode (refs s1) = idle
  ∧ log (world s1) = log (world s) ++ [Fetch (config_request chasing)]
  ∧ aggressiveMode
      (refs (exec (toggleAggressiveMode_resume chasing failed) s1)) = idle
  ∧ aggressiveMode
      (refs (exec (toggleAggressiveMode_resume chasing succeeded) s1))
    = chasing.
Proof.
  assert (isTogglingMode (refs Runs.streaming) = false) as Hfree
    by (vm_compute; reflexivity).
  split; [exact Hfree|].
  destruct (toggleAggressiveMode_cycles Runs.streaming Hfree)
    as (_ & _ & _ & Hmode & _ & _ & Hlog & Hresume).
  split_and!.
  - rewrite Hmode. vm_compute. reflexivity.
  - exact Hlog.
  - destruct (Hresume (exec toggleAggressiveMode Runs.streaming)
                (Fulfilled {| status := 500 |})) as [_ [Hkept _]].
    etransitivity; [exact Hkept|]. rewrite Hmode. vm_compute. reflexivity.
  - destruct (Hresume (exec toggleAggressiveMode Runs.streaming)
                (Fulfilled {| status := 200 |})) as [_ [Hset _]].
    exact Hset.
Defined.

Lemma setAggressiveMode_noop_witness :
  (isTogglingMode (refs Runs.streaming) = true
   ∨ aggressiveMode (refs Runs.streaming) = idle)
  ∧ setAggressiveMode idle Runs.streaming = (Ok tt, Runs.streaming).
Proof.
  assert (isTogglingMode (refs Runs.streaming) = true
          ∨ aggressiveMode (refs Runs.streaming) = idle) as Hguard
    by (right; vm_compute; reflexivity).
  split; [exact Hguard|].
  exact (setAggressiveMode_noop Runs.streaming idle Hguard).
Defined.

Lemma frame_message_needs_element_witness :
  let s := Runs.stale_without_element in
  let s' := exec (onmessage props Reference.frame_message) s in
  (reachable props s
   ∧ frame_message Reference.frame_message "/9j/4AAQSkZJRg==")
  ∧ frame_element (world s) = None
  ∧ hasLastFrame (refs s') = hasLastFrame (refs s)
  ∧ isVideoUnavailable (refs s') = isVideoUnavailable (refs s)
  ∧ timers (world s') = {[ 2%N := 5000 ]}
  ∧ timeoutId (refs s') = Some 2%N.
Proof.
  split; [split; [apply reachable_stale_without_element
                 |apply frame_message_reference]|].
  pose proof (frame_message_needs_element props Runs.stale_without_element
                _ _ reachable_stale_without_element frame_message_reference)
    as (Hflags & Htimers & Hid & _).
  assert (frame_element (world Runs.stale_without_element) = None) as Hnone
    by (vm_compute; reflexivity).
  rewrite Hnone in Hflags. destruct Hflags as (Hshown & Hunavailable & _).
  split_and!; [exact Hnone|exact Hshown|exact Hunavailable
              |exact Htimers|exact Hid].
Defined.

Lemma control_requests_base_witness :
  let s := after props
             [call_resetState; call_toggleAggressiveMode;
              settles 0 (Fulfilled {| status := 500 |})]
             Runs.streaming in
  reachable props s
  ∧ Fetch resetState_request ∈ log (world s)
  ∧ Fetch (config_request chasing) ∈ log (world s)
  ∧ ∀ r, Fetch r ∈ log (world s) →
         req_url r = "http://localhost:8000" +:+ "/increment"
         ∨ req_url r = "http://localhost:8000" +:+ "/config".
Proof.
  assert (reachable props
            (after props
               [call_resetState; call_toggleAggressiveMode;
                settles 0 (Fulfilled {| status := 500 |})]
               Runs.streaming)) as Hs
    by apply reachable_after, reachable_streaming.
  split; [exact Hs|]. split_and!.
  - apply (list_elem_of_lookup_2 _ 5%nat). vm_compute. reflexivity.
  - apply (list_elem_of_lookup_2 _ 6%nat). vm_compute. reflexivity.
  - exact (proj1 (control_requests_base props _ Hs)).
Defined.
End Witnesses.

(** * Further properties of the scripts *)

(** ** Maps of event sources *)

Lemma none_open_all_closed (w : World) (c : N) (es : EventSource) :
  open_sources w = ∅ → sources w !! c = Some es → readyState es = CLOSED.
Proof.
  intros Hnone Hc.
  destruct (decide (readyState es = CLOSED)) as [|Hopen]; [done|].
  assert (open_sources w !! c = Some es) as Hin
    by (by apply map_lookup_filter_Some).
  rewrite Hnone in Hin. by rewrite lookup_empty in Hin.
Qed.

(** ** Calls in flight *)

Lemma in_flight_app kind l l' :
  in_flight kind (l ++ l') = (in_flight kind l + in_flight kind l')%nat.
Proof. induction l as [|a l IH]; simpl; [done|]. rewrite IH. lia. Qed.

Lemma in_flight_delete kind l k a :
  l !! k = Some a →
  in_flight kind l
  = ((if kind a then 1 else 0) + in_flight kind (delete k l))%nat.
Proof.
  revert k. induction l as [|b l IH]; intros [|k] Hk; simplify_eq/=; [done|].
  rewrite (IH k Hk). lia.
Qed.

Lemma in_flight_none kind l a :
  in_flight kind l = 0%nat → a ∈ l → kind a = false.
Proof.
  induction l as [|b l IH]; simpl; intros Hz Ha.
  - by apply elem_of_nil in Ha.
  - apply elem_of_cons in Ha as [->|Ha].
    + destruct (kind b); [lia|done].
    + apply IH; [lia|done].
Qed.

Lemma elem_of_delete_list {A} (l : list A) k x : x ∈ delete k l → x ∈ l.
Proof.
  revert k. induction l as [|b l IH]; intros [|k]; simpl; try done.
  - intros. by right.
  - intros Hx. apply elem_of_cons in Hx as [->|Hx]; [by left|].
    right. by eapply IH.
Qed.

(** ** The frame stream consumer *)

Section MoreVideoStream.
Import VideoStream.
Context `{!Builtins} (props : Props).

Lemma stopStream_world (s : State) :
  let s' := exec stopStream s in
  sources (world s') =
    match frameSource (refs s) with
    | Some c => alter close_state c (sources (world s))
    | None => sources (world s)
    end
  ∧ timers (world s') =
      match timeoutId (refs s) with
      | Some id => if (id =? 0)%N then timers (world s)
                   else delete id (timers (world s))
      | None => timers (world s)
      end
  ∧ timeoutId (refs s') =
      match timeoutId (refs s) with
      | Some id => if (id =? 0)%N then Some id else None
      | None => None
      end.
Proof. destruct s as [[] []]. step_js; cases; done. Qed.

(** X1: [stopStream], called in any reachable state, leaves no event
    source open and no stale timer pending, holds neither handle, marks
    the stream stopped and the video unavailable, and ends by emitting
    status-changed(false) and disconnected; afterwards the browser has
    nothing left to deliver: no message, open, error or timer event can
    reach the component. *)
Theorem stopStream_releases (s : State) :
  reachable props s →
  let s' := exec stopStream s in
  open_sources (world s') = ∅
  ∧ timers (world s') = ∅
  ∧ frameSource (refs s') = None
  ∧ timeoutId (refs s') = None
  ∧ isRunning (refs s') = false
  ∧ isVideoUnavailable (refs s') = true
  ∧ (∃ before, log (world s') =
       before ++ [Emit (statusChanged false); Emit disconnected])
  ∧ ∀ c id event_data fatal,
      handle props (message c event_data) s' = None
      ∧ handle props (open_ c) s' = None
      ∧ handle props (error_event c fatal) s' = None
      ∧ handle props (timer_fires id) s' = None.
Proof.
  intros Hs s'.
  pose proof (reachable_timer_invariant props s Hs) as [Hnt Hp Hh].
  pose proof (reachable_source_invariant props s Hs) as [Ho Hf Hd].
  destruct (stopStream_world s) as (Hsources & Htimers & Hid).
  fold s' in Hsources, Htimers, Hid.
  assert (open_sources (world s') = ∅) as Hopen.
  { unfold open_sources. rewrite Hsources. by apply closed_not_open. }
  assert (timers (world s') = ∅) as Hpending.
  { rewrite Htimers. destruct (timeoutId (refs s)) as [t|] eqn:Ht.
    - destruct (Hh t eq_refl) as [Hne _].
      destruct (N.eqb_spec t 0) as [|_]; [done|].
      by apply pending_only_handle.
    - by apply pending_no_handle. }
  split_and!; try done.
  - subst s'. destruct s as [[] []]. step_js; cases; done.
  - rewrite Hid. destruct (timeoutId (refs s)) as [t|] eqn:Ht; [|done].
    destruct (Hh t eq_refl) as [Hne _].
    by destruct (N.eqb_spec t 0).
  - subst s'. destruct s as [[] []]. step_js; cases; done.
  - subst s'. destruct s as [[] []]. step_js; cases; done.
  - subst s'. destruct s as [[] []]. step_js; cases;
      eexists; rewrite <- app_assoc; reflexivity.
  - intros c id event_data fatal. unfold handle.
    rewrite Hpending, lookup_empty.
    destruct (sources (world s') !! c) as [es|] eqn:Hc; [|done].
    rewrite (none_open_all_closed _ _ _ Hopen Hc).
    by repeat case_decide.
Qed.

(** X3: when the stale timer fires in a reachable state, the video is
    marked unavailable, exactly one disconnected notification is emitted,
    the connection and [isRunning] are left alone, and no timer remains
    pending: it cannot fire a second time before a later message schedules
    a new one. *)
Theorem stale_fires_once (s s' : State) (id : N) :
  reachable props s →
  handle props (timer_fires id) s = Some s' →
  isVideoUnavailable (refs s') = true
  ∧ log (world s') = log (world s) ++ [Emit disconnected]
  ∧ timers (world s') = ∅
  ∧ timeoutId (refs s') = Some id
  ∧ isRunning (refs s') = isRunning (refs s)
  ∧ sources (world s') = sources (world s)
  ∧ ∀ id', handle props (timer_fires id') s' = None.
Proof.
  intros Hs Hev.
  pose proof (reachable_timer_invariant props s Hs) as [Hnt Hp Hh].
  destruct s as [[] [tm ? ? ? ? ?]]. simpl in *.
  destruct (tm !! id) as [ms|] eqn:Hid; [|done].
  pose proof (Hp id (mk_is_Some _ _ Hid)) as ->.
  revert Hev. step_js. simpl. intros [= <-]. simpl.
  rewrite (pending_only_handle _ _ Hp). by split_and!.
Qed.

(** X4: a change of the [select] bound to [aggressiveMode] with [v-model]
    (possible only while no mode change is in flight) stores the chosen
    mode in [aggressiveMode] and sends nothing: its [change] handler calls
    [setAggressiveMode] with the mode just stored, which returns at once.
    No request, no notification, no call left in flight. *)
Theorem select_sends_nothing (s : State) (mode : AggressiveMode) :
  isTogglingMode (refs s) = false →
  ∃ s', handle props (select_change mode) s = Some s'
        ∧ aggressiveMode (refs s') = mode
        ∧ log (world s') = log (world s)
        ∧ awaiting (refs s') = awaiting (refs s)
        ∧ isTogglingMode (refs s') = false.
Proof.
  intros Hfree. destruct s as [[] []]. simpl in *. subst.
  eexists. split; [reflexivity|]. step_js. simpl.
  rewrite bool_decide_eq_true_2 by done. done.
Qed.

Lemma flight_invariant_handle s ev s' :
  flight_invariant s → handle props ev s = Some s' → flight_invariant s'.
Proof.
  intros [Hr Hm Ht] Hev.
  destruct s as [[? ? ? ? ? ? ? ? aw] []]. simpl in *.
  destruct ev; simpl in Hev; revert Hev; step_js; cases;
    intros ?; simplify_eq.
  all: repeat match goal with
         | E : ?l !! _ = Some _ |- _ =>
             rewrite (in_flight_delete is_reset l _ _ E) in Hr;
             rewrite (in_flight_delete is_mode_change l _ _ E) in Hm;
             clear E
         end; simpl in Hr, Hm.
  all: repeat match type of Hr with
         | context [if ?b then _ else _] => destruct b
         end.
  all: repeat match type of Hm with
         | context [if ?b then _ else _] => destruct b
         end.
  all: split; simpl; rewrite ?in_flight_app; simpl; try lia.
  all: intros next Hin;
         repeat (apply elem_of_app in Hin as [Hin|Hin]);
         rewrite ?list_elem_of_singleton in Hin; simplify_eq; try done;
         first
           [ by apply Ht
           | by apply Ht; eapply elem_of_delete_list
           | match type of Hin with
             | _ ∈ ?l =>
                 assert (in_flight is_mode_change l = 0%nat) as Hnone by lia;
                 by pose proof (in_flight_none _ _ _ Hnone Hin)
             end ].
Qed.

Lemma reachable_flight_invariant s : reachable props s → flight_invariant s.
Proof.
  induction 1 as [t c f Hne|s ev s' _ IH Hev].
  - split; simpl; try done. intros next Hin. by apply elem_of_nil in Hin.
  - by eapply flight_invariant_handle.
Qed.

(** X5: in every reachable state at most one reset request and at most
    one mode request are in flight, [isResetting] and [isTogglingMode] being
    set exactly while one is; a further [resetState], [toggleAggressiveMode]
    or [setAggressiveMode] attempted meanwhile sends nothing. *)
Theorem one_request_in_flight (s : State) :
  reachable props s →
  in_flight is_reset (awaiting (refs s))
  = (if isResetting (refs s) then 1%nat else 0%nat)
  ∧ in_flight is_mode_change (awaiting (refs s))
    = (if isTogglingMode (refs s) then 1%nat else 0%nat)
  ∧ (isResetting (refs s) = true →
     log (world (exec resetState s)) = log (world s))
  ∧ (isTogglingMode (refs s) = true →
     ∀ mode, log (world (exec toggleAggressiveMode s)) = log (world s)
             ∧ log (world (exec (setAggressiveMode mode) s))
               = log (world s)).
Proof.
  intros Hs. destruct (reachable_flight_invariant s Hs) as [Hr Hm _].
  split_and!; try done.
  - destruct s as [[] []]. simpl. by intros ->.
  - destruct s as [[] []]. simpl. by intros ->.
Qed.

(** X6: whenever the [fetch] of a pending [toggleAggressiveMode] settles
    in a reachable state, a mode change was marked in flight and no longer
    is afterwards, and the mode held becomes the successor, in the cycle,
    of the mode held at that moment when the response is ok, and stays as
    it is otherwise: nothing can have changed the mode in between. *)
Theorem pending_toggle_advances (s : State) (k : nat)
    (next : AggressiveMode) (settled : Settled) :
  reachable props s →
  awaiting (refs s) !! k = Some (in_toggleAggressiveMode next) →
  ∃ s', handle props (settles k settled) s = Some s'
        ∧ isTogglingMode (refs s) = true
        ∧ isTogglingMode (refs s') = false
        ∧ in_flight is_mode_change (awaiting (refs s')) = 0%nat
        ∧ aggressiveMode (refs s') =
            match settled with
            | Fulfilled response =>
                if ok response then newMode (aggressiveMode (refs s))
                else aggressiveMode (refs s)
            | Rejected _ => aggressiveMode (refs s)
            end.
Proof.
  intros Hs Hk.
  destruct (reachable_flight_invariant s Hs) as [Hr Hm Ht].
  pose proof (Ht next (list_elem_of_lookup_2 _ _ _ Hk)) as ->.
  rewrite (in_flight_delete is_mode_change _ _ _ Hk) in Hm. simpl in Hm.
  destruct s as [[? ? ? ? ? toggling ? ? aw] []]. simpl in *.
  destruct toggling; [|lia].
  eexists. rewrite Hk. split; [reflexivity|].
  destruct settled as [response|reason]; step_js; cases;
    split_and!; try done; lia.
Qed.

(** X7: only [startStream], [stopStream] and [toggleStream] open or close
    a connection: every other event (a message, a transport error, the
    stale timer, a control, a settled request) leaves [isRunning] and
    [frameSource] as they are and constructs or closes no event source.
    In particular the component neither reconnects nor gives up by
    itself. *)
Theorem only_stream_calls_connect (s : State) (ev : Event) (s' : State) :
  handle props ev s = Some s' →
  is_stream_call ev = false →
  isRunning (refs s') = isRunning (refs s)
  ∧ frameSource (refs s') = frameSource (refs s)
  ∧ ∃ added, log (world s') = log (world s) ++ added
             ∧ Forall (λ e, is_connection_effect e = false) added.
Proof.
  intros Hev Hcall. destruct s as [[] []]. simpl in *.
  destruct ev; try discriminate Hcall; simpl in Hev; revert Hev;
    step_js; cases; intros ?; simplify_eq; simpl.
  all: split_and!; try done.
  all: rewrite <- ?app_assoc; simpl.
  all: first [ by exists []; rewrite app_nil_r
             | eexists; split; [reflexivity|]; by repeat constructor ].
Qed.

(** X8: [startStream] with a stream URL the [EventSource] constructor
    cannot resolve throws a [SyntaxError] out of the function after it has
    closed the source held: no connection is open afterwards, while
    [isRunning] and [frameSource] keep their values and no status change
    is emitted. *)
Theorem startStream_unresolvable (s : State) :
  source_invariant s →
  URL_parses (streamUrl props) = false →
  let s' := exec (startStream props) s in
  (startStream props s).1 = Throw SyntaxError
  ∧ isRunning (refs s') = isRunning (refs s)
  ∧ frameSource (refs s') = frameSource (refs s)
  ∧ open_sources (world s') = ∅
  ∧ log (world s') =
      log (world s) ++ match frameSource (refs s) with
                       | Some c => [CloseEventSource c]
                       | None => []
                       end.
Proof.
  intros [Ho Hf Hd] Hurl.
  destruct s as [[? ? ? ? ? ? ? src ?] [? ? srcs ? ? ?]]. simpl in *.
  unfold open_sources. step_js. rewrite Hurl.
  destruct src; simpl; rewrite ?app_nil_r; split_and!; try done.
  - apply map_empty. intros k. apply map_lookup_filter_None. right.
    intros es Hes Hopen. simpl in *. lookups Hes; unmap;
      first [ by apply Hopen | pose proof (Ho _ _ Hes Hopen); congruence ].
  - apply map_empty. intros k. apply map_lookup_filter_None. right.
    intros es Hes Hopen. simpl in *. by pose proof (Ho _ _ Hes Hopen).
Qed.


(** X10: the handler does not check that a message carries a frame: an
    object with no [frame] member, received while the element exists, is
    shown like a frame.  The image source becomes
    [data:image/jpeg;base64,undefined], "has displayed a frame" is set,
    "video unavailable" is cleared, and no notification is emitted. *)
Theorem frameless_message_shown (s : State) (event_data : string)
    (members : list (string * JValue)) :
  JSON_parse event_data = Some (JObj members) →
  own_property "frame" members = None →
  is_Some (frame_element (world s)) →
  let s' := exec (onmessage props event_data) s in
  hasLastFrame (refs s') = true
  ∧ isVideoUnavailable (refs s') = false
  ∧ frame_element (world s') = Some "data:image/jpeg;base64,undefined"
  ∧ ∀ n, Emit n ∉ drop (length (log (world s))) (log (world s')).
Proof.
  intros Hparse Hframe [src Hel]. destruct s as [[] []]. simpl in *. subst.
  step_js. rewrite Hparse. simpl. rewrite Hframe. cases.
  all: split_and!; try done.
  all: intros note; rewrite <- ?app_assoc, drop_app_length; simpl.
  all: rewrite ?elem_of_cons, elem_of_nil; intros Hin;
       repeat destruct Hin as [Hin|Hin]; try discriminate Hin; done.
Qed.

(** X11: [setAggressiveMode(mode)], called with a mode other than the one
    held while no mode change is in flight, sends that mode and leaves
    [aggressiveMode] as it was; when the request succeeds the mode held
    becomes [mode]; when it fails the mode held stays and an error
    notification carries the reason.  The in-flight flag is cleared either
    way. *)
Theorem setAggressiveMode_settles (s : State) (mode : AggressiveMode) :
  isTogglingMode (refs s) = false →
  aggressiveMode (refs s) ≠ mode →
  let s1 := exec (setAggressiveMode mode) s in
  aggressiveMode (refs s1) = aggressiveMode (refs s)
  ∧ isTogglingMode (refs s1) = true
  ∧ awaiting (refs s1) = awaiting (refs s) ++ [in_setAggressiveMode mode]
  ∧ log (world s1) = log (world s) ++ [Fetch (config_request mode)]
  ∧ ∀ (s2 : State) (settled : Settled),
      let s3 := exec (setAggressiveMode_resume mode settled) s2 in
      isTogglingMode (refs s3) = false
      ∧ match settled with
        | Fulfilled response =>
            if ok response then
              aggressiveMode (refs s3) = mode
              ∧ log (world s3) =
                  log (world s2)
                    ++ [Emit (statusChanged (isRunning (refs s2)))]
            else
              aggressiveMode (refs s3) = aggressiveMode (refs s2)
              ∧ log (world s3) =
                  log (world s2)
                    ++ [ConsoleError "Set aggressive mode error:";
                        Emit (error_
                                ("Set aggressive mode failed: "
                                   +:+ "Config update failed: "
                                   +:+ pretty (status response)))]
        | Rejected reason =>
            aggressiveMode (refs s3) = aggressiveMode (refs s2)
            ∧ log (world s3) =
                log (world s2)
                  ++ [ConsoleError "Set aggressive mode error:";
                      Emit (error_ ("Set aggressive mode failed: "
                                      +:+ message_of reason))]
        end.
Proof.
  intros Hfree Hne. destruct s as [[] []]. simpl in *. subst.
  split_and!.
  1-4: step_js; simpl; by rewrite bool_decide_eq_false_2.
  intros [[] []] [response|reason]; step_js; cases;
    rewrite <- ?app_assoc; done.
Qed.

(** X12: no exception escapes a handler: the message, error and open
    handlers, the stale callback, [stopStream], the three controls and
    their resumption after the [fetch] complete normally in every state
    and for every input; only [startStream] (and [toggleStream] when it
    starts) can throw, exactly when the stream URL does not resolve. *)
Theorem handlers_complete (s : State) (event_data : string)
    (mode : AggressiveMode) (a : Awaiting) (settled : Settled) :
  (onmessage props event_data s).1 = Ok tt
  ∧ (onerror s).1 = Ok tt
  ∧ (onopen s).1 = Ok tt
  ∧ (stale s).1 = Ok tt
  ∧ (stopStream s).1 = Ok tt
  ∧ (resetState s).1 = Ok tt
  ∧ (toggleAggressiveMode s).1 = Ok tt
  ∧ (setAggressiveMode mode s).1 = Ok tt
  ∧ (resume a settled s).1 = Ok tt
  ∧ (startStream props s).1
    = (if URL_parses (streamUrl props) then Ok tt else Throw SyntaxError)
  ∧ (toggleStream props s).1
    = (if isRunning (refs s) then Ok tt
       else if URL_parses (streamUrl props) then Ok tt
            else Throw SyntaxError).
Proof.
  destruct s as [[] []], a, settled; split_and!; step_js; cases; done.
Qed.

(** X13: [startStream] does not clear the stale timer: a timer pending
    when the stream is started again is still pending and still the one
    held, and when it fires it marks the video unavailable and emits
    disconnected although the connection it was guarding has been
    replaced. *)
Theorem restart_keeps_stale_timer (s : State) (id : N) :
  reachable props s →
  is_Some (timers (world s) !! id) →
  let s1 := exec (startStream props) s in
  timers (world s1) = timers (world s)
  ∧ timeoutId (refs s1) = Some id
  ∧ ∃ s2, handle props (timer_fires id) s1 = Some s2
          ∧ isVideoUnavailable (refs s2) = true
          ∧ frameSource (refs s2) = frameSource (refs s1)
          ∧ log (world s2) = log (world s1) ++ [Emit disconnected].
Proof.
  intros Hs [ms Hid] s1.
  pose proof (reachable_timer_invariant props s Hs) as [Hnt Hp Hh].
  pose proof (Hp id (mk_is_Some _ _ Hid)) as Hheld.
  assert (timers (world s1) = timers (world s)
          ∧ timeoutId (refs s1) = timeoutId (refs s)) as [Htimers Hsame].
  { subst s1. destruct s as [[? ? ? ? ? ? ? src ?] []].
    step_js; simpl; destruct src; simpl; by destruct (URL_parses _). }
  split_and!; [done|congruence|].
  rewrite <- Htimers in Hid. clearbody s1.
  destruct s1 as [[] []]. simpl in *. rewrite Hid.
  eexists. split; [reflexivity|]. by step_js.
Qed.

Lemma shown_handle s ev s' :
  handle props ev s = Some s' →
  hasLastFrame (refs s) = true → hasLastFrame (refs s') = true.
Proof.
  intros Hev Hshown. destruct s as [[] []]. simpl in *. subst.
  destruct ev; simpl in Hev; revert Hev; step_js; cases;
    intros ?; simplify_eq; done.
Qed.

(** X14: "has displayed a frame" is never reset: once a frame has been
    shown it stays set through whatever happens next, a stop, a restart or
    a failed connection included. *)
Theorem shown_frame_stays (s : State) (events : list Event) :
  hasLastFrame (refs s) = true →
  hasLastFrame (refs (after props events s)) = true.
Proof.
  revert s. induction events as [|ev rest IH]; intros s Hs; [done|].
  simpl. apply IH. destruct (handle props ev s) eqn:Hev; [|done].
  by eapply shown_handle.
Qed.

Lemma running_handle s ev s' :
  isRunning (refs s) = bool_decide (is_Some (frameSource (refs s))) →
  handle props ev s = Some s' →
  isRunning (refs s') = bool_decide (is_Some (frameSource (refs s'))).
Proof.
  intros Hr Hev. destruct s as [[] []]. simpl in *.
  destruct ev; simpl in Hev; revert Hev; step_js; cases;
    intros ?; simplify_eq; simpl; try done.
Qed.
End MoreVideoStream.

(** ** The metadata stream consumer *)

Section MoreMetadataPanel.
Import MetadataPanel.
Context `{!Builtins} (props : Props).

(** X2: [stopStream] of the metadata panel, called in any reachable
    state, leaves no event source open, holds no handle and marks the
    stream stopped; the snapshot held is kept; afterwards no message, open
    or error event can reach the component. *)
Theorem panel_stopStream_releases (s : State) :
  reachable props s →
  let s' := exec stopStream s in
  open_sources (world s') = ∅
  ∧ metadataSource (refs s') = None
  ∧ isRunning (refs s') = false
  ∧ metadata (refs s') = metadata (refs s)
  ∧ (∃ before, log (world s') = before ++ [Emit (statusChanged false)])
  ∧ ∀ c event_data fatal,
      handle props (message c event_data) s' = None
      ∧ handle props (open_ c) s' = None
      ∧ handle props (error_event c fatal) s' = None.
Proof.
  intros Hs s'.
  pose proof (panel_reachable_source_invariant props s Hs) as [Ho Hf Hd].
  assert (sources (world s') =
            match metadataSource (refs s) with
            | Some c => alter close_state c (sources (world s))
            | None => sources (world s)
            end) as Hsources.
  { subst s'. destruct s as [[] []]. step_js; cases; done. }
  assert (open_sources (world s') = ∅) as Hopen.
  { unfold open_sources. rewrite Hsources. by apply closed_not_open. }
  split_and!; try done.
  - subst s'. destruct s as [[] []]. step_js; cases; done.
  - subst s'. destruct s as [[] []]. step_js; cases; done.
  - subst s'. destruct s as [[] []]. step_js; cases; done.
  - subst s'. destruct s as [[] []]. step_js; cases; by eexists.
  - intros c event_data fatal. unfold handle.
    destruct (sources (world s') !! c) as [es|] eqn:Hc; [|done].
    rewrite (none_open_all_closed _ _ _ Hopen Hc).
    by repeat case_decide.
Qed.

(** X15: the snapshot held by the metadata panel changes only when a
    message parses, and then to the parsed value: starting, stopping,
    toggling, a transport error and a malformed message all leave it as
    it is, so the last snapshot survives a stop and a restart. *)
Theorem snapshot_changes_by_message (s : State) (ev : Event) (s' : State) :
  handle props ev s = Some s' →
  metadata (refs s') = metadata (refs s)
  ∨ ∃ c event_data, ev = message c event_data
                    ∧ JSON_parse event_data = Some (metadata (refs s')).
Proof.
  intros Hev. destruct s as [[] []]. simpl in *.
  destruct ev; simpl in Hev; revert Hev; step_js; cases;
    intros ?; simplify_eq; simpl; eauto.
Qed.

Lemma panel_running_handle s ev s' :
  isRunning (refs s) = bool_decide (is_Some (metadataSource (refs s))) →
  handle props ev s = Some s' →
  isRunning (refs s') = bool_decide (is_Some (metadataSource (refs s'))).
Proof.
  intros Hr Hev. destruct s as [[] []]. simpl in *.
  destruct ev; simpl in Hev; revert Hev; step_js; cases;
    intros ?; simplify_eq; simpl; try done.
Qed.
End MoreMetadataPanel.

(** ** Both consumers *)

Section RunningAndHeld.
Context `{!Builtins}.

(** X16: in every reachable state of either consumer, [isRunning] is true
    exactly when the consumer holds an event source: the flag follows the
    handle, also when the source held has been closed by a failed
    connection or by a [startStream] that threw. *)
Theorem running_iff_held
    (vprops : VideoStream.Props) (vs : VideoStream.State)
    (mprops : MetadataPanel.Props) (ms : MetadataPanel.State) :
  VideoStream.reachable vprops vs →
  MetadataPanel.reachable mprops ms →
  (VideoStream.isRunning (refs vs) = true
   ↔ is_Some (VideoStream.frameSource (refs vs)))
  ∧ (MetadataPanel.isRunning (refs ms) = true
     ↔ is_Some (MetadataPanel.metadataSource (refs ms))).
Proof.
  intros Hv Hm. split.
  - assert (VideoStream.isRunning (refs vs)
            = bool_decide (is_Some (VideoStream.frameSource (refs vs))))
      as ->; [|apply bool_decide_eq_true].
    induction Hv as [t c f Hne|s ev s' _ IH Hev]; [done|].
    by eapply running_handle.
  - assert (MetadataPanel.isRunning (refs ms)
            = bool_decide (is_Some (MetadataPanel.metadataSource (refs ms))))
      as ->; [|apply bool_decide_eq_true].
    induction Hm as [c|s ev s' _ IH Hev]; [done|].
    by eapply panel_running_handle.
Qed.
End RunningAndHeld.

(** ** The further properties at work on the runs *)

Section MoreWitnesses.
Import VideoStream.
#[local] Existing Instance Reference.builtins.

Local Abbreviation vprops := IndexPage.VideoStream_props.
Local Abbreviation mprops := IndexPage.MetadataPanel_props.

Lemma reachable_requests_in_flight :
  reachable vprops MoreRuns.requests_in_flight.
Proof. apply reachable_after, reachable_streaming. Qed.

Lemma stopStream_releases_witness :
  let s' := exec stopStream Runs.streaming in
  reachable vprops Runs.streaming
  ∧ open_sources (world s') = ∅
  ∧ timers (world s') = ∅
  ∧ handle vprops (message 1%N Reference.frame_message) s' = None.
Proof.
  split; [apply reachable_streaming|].
  destruct (stopStream_releases vprops Runs.streaming reachable_streaming)
    as (Hopen & Hpending & _ & _ & _ & _ & _ & Hquiet).
  split_and!; [exact Hopen|exact Hpending|].
  exact (proj1 (Hquiet 1%N 1%N Reference.frame_message true)).
Defined.

Lemma panel_stopStream_releases_witness :
  let s' := exec MetadataPanel.stopStream Runs.panel_streaming in
  MetadataPanel.reachable mprops Runs.panel_streaming
  ∧ open_sources (world s') = ∅
  ∧ MetadataPanel.handle mprops
      (MetadataPanel.message 1%N Reference.metadata_message) s' = None.
Proof.
  split; [apply reachable_panel_streaming|].
  destruct (panel_stopStream_releases mprops Runs.panel_streaming
              reachable_panel_streaming)
    as (Hopen & _ & _ & _ & _ & Hquiet).
  split; [exact Hopen|].
  exact (proj1 (Hquiet 1%N Reference.metadata_message true)).
Defined.

Lemma stale_fires_once_witness :
  let s' := exec (host (set_timers (delete 1%N)) ;; stale)%js
              Runs.streaming in
  (reachable vprops Runs.streaming
   ∧ handle vprops (timer_fires 1%N) Runs.streaming = Some s')
  ∧ isVideoUnavailable (refs s') = true
  ∧ timers (world s') = ∅
  ∧ handle vprops (timer_fires 1%N) s' = None.
Proof.
  assert (handle vprops (timer_fires 1%N) Runs.streaming
          = Some (exec (host (set_timers (delete 1%N)) ;; stale)%js
                    Runs.streaming)) as Hev
    by (vm_compute; reflexivity).
  split; [split; [apply reachable_streaming|exact Hev]|].
  destruct (stale_fires_once vprops _ _ _ reachable_streaming Hev)
    as (Hu & _ & Hpending & _ & _ & _ & Hquiet).
  split_and!; [exact Hu|exact Hpending|exact (Hquiet 1%N)].
Defined.

Lemma select_sends_nothing_witness :
  isTogglingMode (refs Runs.streaming) = false
  ∧ ∃ s', handle vprops (select_change explosion) Runs.streaming = Some s'
          ∧ aggressiveMode (refs s') = explosion
          ∧ log (world s') = log (world Runs.streaming).
Proof.
  assert (isTogglingMode (refs Runs.streaming) = false) as Hfree
    by (vm_compute; reflexivity).
  split; [exact Hfree|].
  destruct (select_sends_nothing vprops Runs.streaming explosion Hfree)
    as (s' & Hev & Hmode & Hlog & _).
  exists s'. split_and!; [exact Hev|exact Hmode|exact Hlog].
Defined.

Lemma one_request_in_flight_witness :
  let s := MoreRuns.requests_in_flight in
  reachable vprops s
  ∧ in_flight is_reset (awaiting (refs s)) = 1%nat
  ∧ in_flight is_mode_change (awaiting (refs s)) = 1%nat
  ∧ log (world (exec resetState s)) = log (world s).
Proof.
  split; [apply reachable_requests_in_flight|].
  destruct (one_request_in_flight vprops _ reachable_requests_in_flight)
    as (Hresets & Hmodes & Hdropped & _).
  split_and!.
  - rewrite Hresets. vm_compute. reflexivity.
  - rewrite Hmodes. vm_compute. reflexivity.
  - apply Hdropped. vm_compute. reflexivity.
Defined.

Lemma pending_toggle_advances_witness :
  let s := MoreRuns.requests_in_flight in
  (reachable vprops s
   ∧ awaiting (refs s) !! 1%nat = Some (in_toggleAggressiveMode chasing))
  ∧ ∃ s', handle vprops (settles 1 (Fulfilled {| status := 204 |})) s
          = Some s'
          ∧ aggressiveMode (refs s') = chasing.
Proof.
  assert (awaiting (refs MoreRuns.requests_in_flight) !! 1%nat
          = Some (in_toggleAggressiveMode chasing)) as Hk
    by (vm_compute; reflexivity).
  split; [split; [apply reachable_requests_in_flight|exact Hk]|].
  destruct (pending_toggle_advances vprops _ 1 chasing
              (Fulfilled {| status := 204 |})
              reachable_requests_in_flight Hk)
    as (s' & Hev & _ & _ & _ & Hmode).
  exists s'. split; [exact Hev|].
  rewrite Hmode. vm_compute. reflexivity.
Defined.

Lemma only_stream_calls_connect_witness :
  let s' := exec (onmessage vprops Reference.truncated_message)
              Runs.streaming in
  (handle vprops (message 1%N Reference.truncated_message) Runs.streaming
   = Some s'
   ∧ is_stream_call (message 1%N Reference.truncated_message) = false)
  ∧ isRunning (refs s') = isRunning (refs Runs.streaming)
  ∧ frameSource (refs s') = frameSource (refs Runs.streaming).
Proof.
  assert (handle vprops (message 1%N Reference.truncated_message)
            Runs.streaming
          = Some (exec (onmessage vprops Reference.truncated_message)
                    Runs.streaming)) as Hev
    by (vm_compute; reflexivity).
  split; [split; [exact Hev|reflexivity]|].
  destruct (only_stream_calls_connect vprops _ _ _ Hev eq_refl)
    as (Hrunning & Hheld & _).
  split; [exact Hrunning|exact Hheld].
Defined.

(** While streaming, once the [streamUrl] prop has become [http://],
    which names no host: [startStream] closes source 1 and throws. *)
Lemma startStream_unresolvable_witness :
  let s' := exec (startStream MoreRuns.unresolvable_props) Runs.streaming in
  (source_invariant Runs.streaming
   ∧ URL_parses (streamUrl MoreRuns.unresolvable_props) = false)
  ∧ (startStream MoreRuns.unresolvable_props Runs.streaming).1
    = Throw SyntaxError
  ∧ open_sources (world s') = ∅
  ∧ log (world s') = log (world Runs.streaming) ++ [CloseEventSource 1%N].
Proof.
  pose proof (reachable_source_invariant vprops _ reachable_streaming)
    as Hinv.
  assert (URL_parses (streamUrl MoreRuns.unresolvable_props) = false)
    as Hurl by (vm_compute; reflexivity).
  split; [split; [exact Hinv|exact Hurl]|].
  destruct (startStream_unresolvable MoreRuns.unresolvable_props
              Runs.streaming Hinv Hurl)
    as (Hthrown & _ & _ & Hopen & Hlog).
  split_and!; [exact Hthrown|exact Hopen|exact Hlog].
Defined.


Lemma frameless_message_shown_witness :
  let s := mounted 1 1 (Some "") in
  let s' := exec (onmessage vprops MoreRuns.empty_object_message) s in
  (JSON_parse MoreRuns.empty_object_message = Some (JObj [])
   ∧ own_property "frame" [] = None
   ∧ is_Some (frame_element (world s)))
  ∧ hasLastFrame (refs s') = true
  ∧ isVideoUnavailable (refs s') = false
  ∧ frame_element (world s') = Some "data:image/jpeg;base64,undefined".
Proof.
  assert (JSON_parse MoreRuns.empty_object_message = Some (JObj []))
    as Hparse by (vm_compute; reflexivity).
  assert (is_Some (frame_element (world (mounted 1 1 (Some ""))))) as Hel
    by (simpl; eauto).
  split; [split_and!; [exact Hparse|reflexivity|exact Hel]|].
  destruct (frameless_message_shown vprops (mounted 1 1 (Some "")) _ []
              Hparse eq_refl Hel) as (Hshown & Hu & Hsrc & _).
  split_and!; [exact Hshown|exact Hu|exact Hsrc].
Defined.

Lemma setAggressiveMode_settles_witness :
  let s1 := exec (setAggressiveMode explosion) Runs.streaming in
  (isTogglingMode (refs Runs.streaming) = false
   ∧ aggressiveMode (refs Runs.streaming) ≠ explosion)
  ∧ log (world s1)
    = log (world Runs.streaming) ++ [Fetch (config_request explosion)]
  ∧ aggressiveMode
      (refs (exec (setAggressiveMode_resume explosion
                     (Rejected (ErrorObject "Failed to fetch"))) s1))
    = aggressiveMode (refs s1).
Proof.
  assert (isTogglingMode (refs Runs.streaming) = false) as Hfree
    by (vm_compute; reflexivity).
  assert (aggressiveMode (refs Runs.streaming) ≠ explosion) as Hne
    by (vm_compute; discriminate).
  split; [split; [exact Hfree|exact Hne]|].
  destruct (setAggressiveMode_settles Runs.streaming explosion
              Hfree Hne) as (_ & _ & _ & Hlog & Hresume).
  split; [exact Hlog|].
  exact (proj1 (proj2 (Hresume _ (Rejected (ErrorObject "Failed to fetch"))))).
Defined.

Lemma restart_keeps_stale_timer_witness :
  let s1 := exec (startStream vprops) Runs.streaming in
  (reachable vprops Runs.streaming
   ∧ is_Some (timers (world Runs.streaming) !! 1%N))
  ∧ timeoutId (refs s1) = Some 1%N
  ∧ ∃ s2, handle vprops (timer_fires 1%N) s1 = Some s2
          ∧ isVideoUnavailable (refs s2) = true.
Proof.
  assert (is_Some (timers (world Runs.streaming) !! 1%N)) as Hpending
    by (vm_compute; eauto).
  split; [split; [apply reachable_streaming|exact Hpending]|].
  destruct (restart_keeps_stale_timer vprops Runs.streaming 1%N
              reachable_streaming Hpending)
    as (_ & Hheld & s2 & Hev & Hu & _).
  split; [exact Hheld|]. exists s2. split; [exact Hev|exact Hu].
Defined.

Lemma shown_frame_stays_witness :
  hasLastFrame (refs Runs.streaming) = true
  ∧ hasLastFrame (refs MoreRuns.restarted_and_failed) = true.
Proof.
  assert (hasLastFrame (refs Runs.streaming) = true) as Hshown
    by (vm_compute; reflexivity).
  split; [exact Hshown|].
  exact (shown_frame_stays vprops Runs.streaming
           [call_stopStream; call_startStream; error_event 2%N true] Hshown).
Defined.

Lemma snapshot_changes_by_message_witness :
  let s' := exec (MetadataPanel.onmessage Reference.metadata_message)
              Runs.panel_streaming in
  MetadataPanel.handle mprops
    (MetadataPanel.message 1%N Reference.metadata_message)
    Runs.panel_streaming = Some s'
  ∧ JSON_parse Reference.metadata_message
    = Some (MetadataPanel.metadata (refs s')).
Proof.
  assert (MetadataPanel.handle mprops
            (MetadataPanel.message 1%N Reference.metadata_message)
            Runs.panel_streaming
          = Some (exec (MetadataPanel.onmessage Reference.metadata_message)
                    Runs.panel_streaming)) as Hev
    by (vm_compute; reflexivity).
  split; [exact Hev|].
  destruct (snapshot_changes_by_message mprops _ _ _ Hev)
    as [Hsame|(c & event_data & Hmessage & Hparse)].
  - vm_compute in Hsame. discriminate Hsame.
  - simplify_eq. exact Hparse.
Defined.

Lemma running_iff_held_witness :
  (reachable vprops MoreRuns.restarted_and_failed
   ∧ MetadataPanel.reachable mprops Runs.panel_streaming)
  ∧ isRunning (refs MoreRuns.restarted_and_failed) = true
  ∧ is_Some (frameSource (refs MoreRuns.restarted_and_failed)).
Proof.
  assert (reachable vprops MoreRuns.restarted_and_failed) as Hs
    by apply reachable_after, reachable_streaming.
  split; [split; [exact Hs|apply reachable_panel_streaming]|].
  destruct (running_iff_held vprops _ mprops _ Hs reachable_panel_streaming)
    as [Hv _].
  assert (isRunning (refs MoreRuns.restarted_and_failed) = true) as Hrunning
    by (vm_compute; reflexivity).
  split; [exact Hrunning|exact (proj1 Hv Hrunning)].
Defined.
End MoreWitnesses.
